(** * RangeIndex: a monotonic integer range used as an index

    A shallow embedding of [pandas/core/indexes/range.py] and of the
    part of Python's built-in [range] object that the class relies on,
    followed by the properties of the set algebra, the arithmetic, the
    constructors and the accessors.

    Python integers are unbounded, so they are modelled by [Z]; [//] and
    [%] are floor division and its remainder, which is what [Z.div] and
    [Z.modulo] compute for a divisor other than zero. *)

From Stdlib Require Import ZArith List Lia Bool Znumtheory Sorted FinFun
  Permutation.
Import ListNotations.
Local Open Scope Z_scope.

(** ** Exceptions and fallible computations *)

Inductive exn : Type :=
| TypeError
| ValueError
| IndexError
| KeyError
| ZeroDivisionError
| OverflowError.

Inductive result (A : Type) : Type :=
| Ok (a : A)
| Raise (e : exn).

Arguments Ok {A} a.
Arguments Raise {A} e.

Definition bind {A B : Type} (m : result A) (k : A -> result B) : result B :=
  match m with
  | Ok a => k a
  | Raise e => Raise e
  end.

Notation "x <- m ;; k" := (bind m (fun x => k))
  (at level 61, m at next level, right associativity).
Notation "' p <- m ;; k" := (bind m (fun x => match x with p => k end))
  (at level 61, p pattern, m at next level, right associativity).

(** ** Python's built-in [range] *)

Record range : Type := mkrange { start : Z; stop : Z; step : Z }.

(** [len(r)], as CPython computes it (compute_range_length). *)
Definition len (r : range) : Z :=
  let '(lo, hi, st) :=
    if 0 <? step r then (start r, stop r, step r)
    else (stop r, start r, - step r) in
  if hi <=? lo then 0 else (hi - lo - 1) / st + 1.

(** [r[i]] for an index already known to be in bounds (compute_item). *)
Definition compute_item (r : range) (i : Z) : Z := start r + i * step r.

(** [list(r)]. *)
Definition tolist (r : range) : list Z :=
  map (fun i => compute_item r (Z.of_nat i)) (seq 0 (Z.to_nat (len r))).

(** [r[i]] for a scalar [i]: a negative index counts from the end. *)
Definition range_item (r : range) (i : Z) : result Z :=
  let i' := if i <? 0 then i + len r else i in
  if (i' <? 0) || (len r <=? i') then Raise IndexError
  else Ok (compute_item r i').

(** [x in r] (range_contains_long). *)
Definition range_contains (r : range) (x : Z) : bool :=
  (if 0 <? step r then (start r <=? x) && (x <? stop r)
   else (stop r <? x) && (x <=? start r))
  && ((x - start r) mod step r =? 0).

(** [r.index(x)]. *)
Definition range_index (r : range) (x : Z) : result Z :=
  if range_contains r x then Ok ((x - start r) / step r)
  else Raise ValueError.

(** [r0 == r1] (range_equals): ranges compare as sequences. *)
Definition range_eqb (r0 r1 : range) : bool :=
  if negb (len r0 =? len r1) then false
  else if len r0 =? 0 then true
  else if negb (start r0 =? start r1) then false
  else if len r0 =? 1 then true
  else step r0 =? step r1.

(** A slice object [lo:hi:st]; [None] is an omitted bound. *)
Record slice : Type :=
  mkslice { sl_start : option Z; sl_stop : option Z; sl_step : option Z }.

(** [slice.indices(length)] for unbounded integers
    (_PySlice_GetLongIndices). *)
Definition slice_indices (s : slice) (length : Z) : result (Z * Z * Z) :=
  let st := match sl_step s with None => 1 | Some v => v end in
  if st =? 0 then Raise ValueError
  else
    let neg := st <? 0 in
    let lower := if neg then -1 else 0 in
    let upper := if neg then length + -1 else length in
    let clip (v : Z) :=
      if v <? 0 then Z.max (v + length) lower else Z.min v upper in
    let b := match sl_start s with
             | None => if neg then upper else lower
             | Some v => clip v
             end in
    let e := match sl_stop s with
             | None => if neg then lower else upper
             | Some v => clip v
             end in
    Ok (b, e, st).

(** [r[lo:hi:st]] (compute_slice). *)
Definition range_slice (r : range) (s : slice) : result range :=
  '(b, e, st) <- slice_indices s (len r) ;;
  Ok (mkrange (compute_item r b) (compute_item r e) (st * step r)).

(** [r[::-1]]. *)
Definition reverse_slice : slice := mkslice None None (Some (-1)).

(** [any(r)]: some element is truthy. *)
Definition py_any (l : list Z) : bool := existsb (fun x => negb (x =? 0)) l.

(** Python's [//] and [%] raise on a zero divisor. *)
Definition py_floordiv (a b : Z) : result Z :=
  if b =? 0 then Raise ZeroDivisionError else Ok (a / b).

Definition py_mod (a b : Z) : result Z :=
  if b =? 0 then Raise ZeroDivisionError else Ok (a mod b).

(** ** Floats that hold whole numbers

    The union divides a step by two with [/], which yields a float.
    Every float met there holds a whole number, so a float is modelled
    by the integer it holds: one with at most 53 significant bits. *)

(** The float nearest to the integer [z], ties going to the even
    significand: [z] itself below [2^53]. *)
Definition round_float (z : Z) : Z :=
  let a := Z.abs z in
  if a <? 2 ^ 53 then z
  else
    let e := Z.log2 a - 52 in
    let q := a / 2 ^ e in
    let r := a mod 2 ^ e in
    let q' := if (2 ^ e <? 2 * r) || ((2 * r =? 2 ^ e) && Z.odd q)
              then q + 1 else q in
    Z.sgn z * (q' * 2 ^ e).

(** The magnitude from which there is no finite float. *)
Definition float_overflow : Z := 2 ^ 1024.

(** [float(z)] for an int: OverflowError when [z] is too large. *)
Definition float_of_int (z : Z) : result Z :=
  let f := round_float z in
  if float_overflow <=? Z.abs f then Raise OverflowError else Ok f.

(** [n / 2] for an even int [n]: the float nearest to the quotient,
    OverflowError when the quotient is too large for a float. *)
Definition true_div_by_2 (n : Z) : result Z := float_of_int (n / 2).

(** [x + y] for two floats holding whole numbers, as the index
    constructor receives it: the sum is rounded, and a sum beyond the
    floats is [inf], which the constructor refuses with OverflowError
    when it converts it to an int. *)
Definition float_add (x y : Z) : result Z := float_of_int (x + y).

(** ** Constructors of RangeIndex

    A RangeIndex is its [_range]; the name is opaque to every operation
    modelled here and is left out.  Arguments are integers or [None]. *)

(** [x or d] for an optional integer: [None] and [0] are falsy. *)
Definition or_default (x : option Z) (d : Z) : Z :=
  match x with
  | None => d
  | Some v => if v =? 0 then d else v
  end.

(** The tail of [_simple_new], reached with an integer [start]:
    [result._range = range(start, stop or 0, step or 1)]. *)
Definition set_range (start : Z) (stop step : option Z) : range :=
  mkrange start (or_default stop 0) (or_default step 1).

Definition _all_none (a b c : option Z) : bool :=
  match a, b, c with
  | None, None, None => true
  | _, _, _ => false
  end.

(** [RangeIndex(start, stop, step)]: the validating constructor. *)
Definition __new__ (start stop step : option Z) : result range :=
  if _all_none start stop step then Raise TypeError
  else
    let start := match start with Some v => v | None => 0 end in
    let '(start, stop) :=
      match stop with
      | None => (0, start)
      | Some v => (start, v)
      end in
    let step := match step with Some v => v | None => 1 end in
    if step =? 0 then Raise ValueError
    else Ok (set_range start (Some stop) (Some step)).

(** [RangeIndex._simple_new(start, stop, step)]: the internal constructor.
    With [start] absent and [stop] given it defers to [__new__]; the
    [except TypeError] arm (the generic [Index] constructor) lies outside
    this module and is kept as the error it handles. *)
Definition _simple_new (start stop step : option Z) : result range :=
  let '(start, stop, step) :=
    match start, stop with
    | None, None => (Some 0, Some 0, Some 1)
    | _, _ => (start, stop, step)
    end in
  match start with
  | None => __new__ start stop step
  | Some s => Ok (set_range s stop step)
  end.

(** [RangeIndex.from_range(data)]. *)
Definition from_range (data : range) : result range :=
  __new__ (Some (start data)) (Some (stop data)) (Some (step data)).

(** [RangeIndex(other_range_index)]: [__new__] given a RangeIndex. *)
Definition new_from_index (r : range) : result range :=
  _simple_new (Some (start r)) (Some (stop r)) (Some (step r)).

(** [_shallow_copy()] with no values. *)
Definition _shallow_copy (self : range) : result range :=
  _simple_new (Some (start self)) (Some (stop self)) (Some (step self)).

Definition copy (self : range) : result range := from_range self.

(** ** Accessors *)

Definition is_unique (self : range) : bool := true.
Definition has_duplicates (self : range) : bool := false.

Definition is_monotonic_increasing (self : range) : bool :=
  (0 <? step self) || (len self <=? 1).

Definition is_monotonic_decreasing (self : range) : bool :=
  (step self <? 0) || (len self <=? 1).

Definition __contains__ (self : range) (key : Z) : bool :=
  range_contains self key.

Definition get_loc (self : range) (key : Z) : result Z :=
  match range_index self key with
  | Raise ValueError => Raise KeyError
  | r => r
  end.

Definition equals (self other : range) : bool := range_eqb self other.

(** [self[key]] for an integer [key]: [self._range[key]], the IndexError
    being raised again with the index's own message. *)
Definition getitem_scalar (self : range) (key : Z) : result Z :=
  range_item self key.

(** [self[key]] for a slice [key]. *)
Definition getitem_slice (self : range) (key : slice) : result range :=
  new_range <- range_slice self key ;;
  from_range new_range.

Definition all (self : range) : bool := negb (range_contains self 0).
Definition any (self : range) : bool := py_any (tolist self).

(** ** Number-theory helpers *)

Definition _min_fitting_element (self : range) (lower_limit : Z) : Z :=
  let no_steps := - (- (lower_limit - start self) / Z.abs (step self)) in
  start self + Z.abs (step self) * no_steps.

Definition _max_fitting_element (self : range) (upper_limit : Z) : Z :=
  let no_steps := (upper_limit - start self) / Z.abs (step self) in
  start self + Z.abs (step self) * no_steps.

(** The state of the loop of [_extended_gcd]. *)
Record egcd_state : Type :=
  mkegcd { eg_s : Z; eg_old_s : Z; eg_t : Z; eg_old_t : Z;
           eg_r : Z; eg_old_r : Z }.

(** One pass through the body of [while r:]. *)
Definition egcd_body (st : egcd_state) : egcd_state :=
  let quotient := eg_old_r st / eg_r st in
  mkegcd (eg_old_s st - quotient * eg_s st) (eg_s st)
         (eg_old_t st - quotient * eg_t st) (eg_t st)
         (eg_old_r st - quotient * eg_r st) (eg_r st).

(** The loop as Python runs it: it leaves when [r] is zero. *)
Inductive egcd_run : egcd_state -> Z * Z * Z -> Prop :=
| egcd_run_exit st :
    eg_r st = 0 -> egcd_run st (eg_old_r st, eg_old_s st, eg_old_t st)
| egcd_run_iter st res :
    eg_r st <> 0 -> egcd_run (egcd_body st) res -> egcd_run st res.

(** The same loop by recursion on a bound on the number of passes. *)
Fixpoint egcd_loop (fuel : nat) (st : egcd_state) : Z * Z * Z :=
  if eg_r st =? 0 then (eg_old_r st, eg_old_s st, eg_old_t st)
  else match fuel with
       | O => (eg_old_r st, eg_old_s st, eg_old_t st)
       | S fuel' => egcd_loop fuel' (egcd_body st)
       end.

(** [_extended_gcd(a, b)]; [|r|] shrinks at every pass, so [|b|] passes
    are enough (lemma [egcd_loop_run]). *)
Definition _extended_gcd (a b : Z) : Z * Z * Z :=
  egcd_loop (Z.abs_nat b) (mkegcd 0 1 1 0 b a).

(** ** Intersection *)

(** The [sort] keyword: [None] or [False]. *)
Inductive sort_kw : Type := SortNone | SortFalse.

(** Modelled from the spec: [sort_values] of the generic index is not in
    this module; the intersection "reverses once more" when a sorted
    result is requested and the natural orientation is decreasing. *)
Definition sort_values (self : range) : result range :=
  if step self <? 0 then getitem_slice self reverse_slice else Ok self.

Definition intersection (self other : range) (sort : sort_kw) : result range :=
  if equals self other then Ok self
  else if (len self =? 0) || (len other =? 0) then _simple_new None None None
  else
    first <- (if step self <? 0 then range_slice self reverse_slice
              else Ok self) ;;
    second <- (if step other <? 0 then range_slice other reverse_slice
               else Ok other) ;;
    let int_low := Z.max (start first) (start second) in
    let int_high := Z.min (stop first) (stop second) in
    if int_high <=? int_low then _simple_new None None None
    else
      let '(gcd, s, t) := _extended_gcd (step first) (step second) in
      phase <- py_mod (start first - start second) gcd ;;
      if negb (phase =? 0) then _simple_new None None None
      else
        q <- py_floordiv ((start second - start first) * step first) gcd ;;
        let tmp_start := start first + q * s in
        new_step <- py_floordiv (step first * step second) gcd ;;
        new_index <- _simple_new (Some tmp_start) (Some int_high)
                                 (Some new_step) ;;
        let new_start := _min_fitting_element new_index int_low in
        new_index <- _simple_new (Some new_start) (Some (stop new_index))
                                 (Some (step new_index)) ;;
        new_index <- (if negb (Bool.eqb ((step self <? 0) && (step other <? 0))
                                        (step new_index <? 0))
                      then getitem_slice new_index reverse_slice
                      else Ok new_index) ;;
        match sort with
        | SortNone => sort_values new_index
        | SortFalse => Ok new_index
        end.

(** ** Index values

    Operations that cannot keep the range form hand over to the dense
    integer index, which is not part of this module. *)

Inductive binop : Type :=
| Add | RAdd | Sub | RSub | Mul | RMul | TrueDiv | RTrueDiv | FloorDiv.

(** A Python number: an [int], or the [float] that true division of
    [num] by [den] yields (kept as the quotient it stands for). *)
Inductive pynum : Type :=
| PyInt (z : Z)
| PyFloat (num den : Z).

Inductive index : Type :=
| RangeIndex (r : range)
| Int64Index (data : list Z)
| Float64Of (r : range)
  (** [r.astype('float64')] *)
| Int64Binop (op : binop) (data : list Z) (other : pynum).
  (** [op(self._int64index, other)], left to the dense index *)

(** ** Union *)

Fixpoint insert_sorted (x : Z) (l : list Z) : list Z :=
  match l with
  | [] => [x]
  | y :: l' =>
      if x <? y then x :: l
      else if x =? y then l
      else y :: insert_sorted x l'
  end.

(** Modelled from the spec: [Int64Index._union], the dense fallback, is
    not in this module.  It "materializes both progressions and forms the
    sorted deduplicated union", or "an unsorted dense
    concatenation-with-dedup" when no sort is requested. *)
Definition int64_union (l1 l2 : list Z) (sort : sort_kw) : list Z :=
  match sort with
  | SortNone => fold_right insert_sorted [] (l1 ++ l2)
  | SortFalse => l1 ++ filter (fun x => negb (existsb (Z.eqb x) l1)) l2
  end.

(** Modelled from the spec: [Index._union] of the base class is not in
    this module.  On the fast exits, "if either side is empty or they are
    set-equal, return the non-trivial side (or either, if equal)". *)
Definition base_union (self other : range) : index :=
  if (len other =? 0) || equals self other then RangeIndex self
  else RangeIndex other.

(** The first half of the general path of [_union]: both operands seen
    as increasing, by their first element, step and last element, the
    step of a one-element operand being replaced. *)
Definition union_operands (self other : range) : Z * Z * Z * (Z * Z * Z) :=
  let '(start_s, step_s) := (start self, step self) in
  let end_s := start self + step self * (len self - 1) in
  let '(start_o, step_o) := (start other, step other) in
  let end_o := start other + step other * (len other - 1) in
  let '(start_s, step_s, end_s) :=
    if step self <? 0 then (end_s, - step_s, start_s)
    else (start_s, step_s, end_s) in
  let '(start_o, step_o, end_o) :=
    if step other <? 0 then (end_o, - step_o, start_o)
    else (start_o, step_o, end_o) in
  let '(step_s, step_o) :=
    if (len self =? 1) && (len other =? 1)
    then (Z.abs (start self - start other),
          Z.abs (start self - start other))
    else if len self =? 1 then (step_o, step_o)
    else if len other =? 1 then (step_s, step_s)
    else (step_s, step_o) in
  (start_s, step_s, end_s, (start_o, step_o, end_o)).

(** The test that sends [_union] to the base class. *)
Definition union_fast_exit (self other : range) : bool :=
  (len other =? 0) || equals self other || (len self =? 0).

(** The test of the branch for contiguous ranges of equal step. *)
Definition contiguous_test (start_s step_s end_s start_o end_o phase : Z)
  : bool :=
  (phase =? 0) && (start_s - end_o <=? step_s) && (start_o - end_s <=? step_s).

(** The test of the half-step branch.  [and] evaluates [step_s / 2] only
    for an even step, and compares the integers with the float exactly. *)
Definition half_step_test (start_s step_s end_s start_o end_o : Z)
  : result bool :=
  if step_s mod 2 =? 0 then
    half <- true_div_by_2 step_s ;;
    if Z.abs (start_s - start_o) <=? half then
      half <- true_div_by_2 step_s ;;
      Ok (Z.abs (end_s - end_o) <=? half)
    else Ok false
  else Ok false.

(** [_union(self, other, sort)].  In the half-step branch the constructor
    is given the floats [end_r + step_s / 2] and [step_s / 2], which it
    converts back to ints. *)
Definition _union (self other : range) (sort : sort_kw) : result index :=
  let fallback :=
    Ok (Int64Index (int64_union (tolist self) (tolist other) sort)) in
  if union_fast_exit self other then Ok (base_union self other)
  else
    match sort with
    | SortFalse => fallback
    | SortNone =>
        let '(start_s, step_s, end_s, (start_o, step_o, end_o)) :=
          union_operands self other in
        let start_r := Z.min start_s start_o in
        let end_r := Z.max end_s end_o in
        if step_o =? step_s then
          phase <- py_mod (start_s - start_o) step_s ;;
          if contiguous_test start_s step_s end_s start_o end_o phase
          then r <- __new__ (Some start_r) (Some (end_r + step_s))
                            (Some step_s) ;;
               Ok (RangeIndex r)
          else
            taken <- half_step_test start_s step_s end_s start_o end_o ;;
            if taken then
              half <- true_div_by_2 step_s ;;
              float_end <- float_of_int end_r ;;
              stop_r <- float_add float_end half ;;
              step_r <- true_div_by_2 step_s ;;
              r <- __new__ (Some start_r) (Some stop_r) (Some step_r) ;;
              Ok (RangeIndex r)
            else fallback
        else
          m <- py_mod step_o step_s ;;
          if m =? 0 then
            phase <- py_mod (start_o - start_s) step_s ;;
            if (phase =? 0) && (start_s <=? start_o + step_s)
               && (end_o - step_s <=? end_s)
            then r <- __new__ (Some start_r) (Some (end_r + step_s))
                              (Some step_s) ;;
                 Ok (RangeIndex r)
            else fallback
          else
            m <- py_mod step_s step_o ;;
            if m =? 0 then
              phase <- py_mod (start_s - start_o) step_o ;;
              if (phase =? 0) && (start_o <=? start_s + step_o)
                 && (end_s - step_o <=? end_o)
              then r <- __new__ (Some start_r) (Some (end_r + step_o))
                                (Some step_o) ;;
                   Ok (RangeIndex r)
              else fallback
            else fallback
    end.

(** [_union] reaches the half-step test and evaluates [step_s / 2]. *)
Definition half_step_reached (self other : range) : bool :=
  let '(start_s, step_s, end_s, (start_o, step_o, end_o)) :=
    union_operands self other in
  negb (union_fast_exit self other)
  && (step_o =? step_s)
  && negb (contiguous_test start_s step_s end_s start_o end_o
             ((start_s - start_o) mod step_s))
  && (step_s mod 2 =? 0).

(** Every float of the half-step branch holds its integer exactly: the
    larger end plus a step stays below [2^53]. *)
Definition floats_exact (self other : range) : bool :=
  let '(start_s, step_s, end_s, (start_o, step_o, end_o)) :=
    union_operands self other in
  Z.abs (Z.max end_s end_o) + step_s <? 2 ^ 53.


(** The half-step branch of [_union] is taken although the two
    increasing ranges do not start exactly the float [step_s / 2]
    apart. *)
Definition half_step_slip (self other : range) : bool :=
  let '(start_s, step_s, end_s, (start_o, step_o, end_o)) :=
    union_operands self other in
  half_step_reached self other
  && match half_step_test start_s step_s end_s start_o end_o,
           true_div_by_2 step_s with
     | Ok true, Ok half => negb (Z.abs (start_s - start_o) =? half)
     | _, _ => false
     end.

(** ** Arithmetic with a scalar *)

Definition is_integer (x : pynum) : bool :=
  match x with
  | PyInt _ => true
  | PyFloat _ _ => false
  end.

(** Truth value of a number: zero is falsy. *)
Definition truthy (x : pynum) : bool :=
  match x with
  | PyInt z => negb (z =? 0)
  | PyFloat n _ => negb (n =? 0)
  end.

(** [op(x, y)] for two Python ints; the reflected operators swap their
    arguments, and true division always yields a float. *)
Definition apply_op (op : binop) (x y : Z) : result pynum :=
  match op with
  | Add => Ok (PyInt (x + y))
  | RAdd => Ok (PyInt (y + x))
  | Sub => Ok (PyInt (x - y))
  | RSub => Ok (PyInt (y - x))
  | Mul => Ok (PyInt (x * y))
  | RMul => Ok (PyInt (y * x))
  | TrueDiv => if y =? 0 then Raise ZeroDivisionError else Ok (PyFloat x y)
  | RTrueDiv => if x =? 0 then Raise ZeroDivisionError else Ok (PyFloat y x)
  | FloorDiv => z <- py_floordiv x y ;; Ok (PyInt z)
  end.

(** [ensure_python_int]: a float passes when it holds a whole number
    (taking the float for the quotient it stands for). *)
Definition ensure_python_int (v : pynum) : result Z :=
  match v with
  | PyInt z => Ok z
  | PyFloat n d =>
      if (negb (d =? 0)) && (n mod d =? 0) then Ok (n / d)
      else Raise TypeError
  end.

(** [RangeIndex(start, stop, step)] on numbers that may be floats. *)
Definition new_of_numbers (rstart rstop rstep : pynum) : result range :=
  s <- ensure_python_int rstart ;;
  e <- ensure_python_int rstop ;;
  st <- ensure_python_int rstep ;;
  __new__ (Some s) (Some e) (Some st).

(** [_make_evaluate_binop(op, step)] applied to [self] and an integer
    scalar [other]; [step] is [None] for "use the existing step". *)
Definition _evaluate_numeric_binop (op : binop) (step_op : option binop)
    (self : range) (other : Z) : result index :=
  let attempt : result index :=
    rstep <- match step_op with
             | Some sop =>
                 rstep <- apply_op sop (step self) other ;;
                 if negb (is_integer rstep) || negb (truthy rstep)
                 then Raise ValueError
                 else Ok rstep
             | None => Ok (PyInt (step self))
             end ;;
    rstart <- apply_op op (start self) other ;;
    rstop <- apply_op op (stop self) other ;;
    res <- new_of_numbers rstart rstop rstep ;;
    if negb (forallb is_integer [rstart; rstop; rstep])
    then Ok (Float64Of res)
    else Ok (RangeIndex res) in
  match attempt with
  | Raise ValueError | Raise TypeError | Raise ZeroDivisionError =>
      Ok (Int64Binop op (tolist self) (PyInt other))
  | r => r
  end.

Definition __add__ := _evaluate_numeric_binop Add None.
Definition __radd__ := _evaluate_numeric_binop RAdd None.
Definition __sub__ := _evaluate_numeric_binop Sub None.
Definition __rsub__ := _evaluate_numeric_binop RSub None.
Definition __mul__ := _evaluate_numeric_binop Mul (Some Mul).
Definition __rmul__ := _evaluate_numeric_binop RMul (Some RMul).
Definition __truediv__ := _evaluate_numeric_binop TrueDiv (Some TrueDiv).
Definition __rtruediv__ := _evaluate_numeric_binop RTrueDiv (Some RTrueDiv).

Definition __floordiv__ (self : range) (other : pynum) : result index :=
  let fallback := Ok (Int64Binop FloorDiv (tolist self) other) in
  match other with
  | PyInt k =>
      if negb (k =? 0) then
        if (len self =? 0)
           || ((start self mod k =? 0) && (step self mod k =? 0))
        then
          let start := start self / k in
          let step := step self / k in
          let stop := start + len self * step in
          r <- _simple_new (Some start) (Some stop) (Some step) ;;
          Ok (RangeIndex r)
        else if len self =? 1 then
          let start := start self / k in
          r <- _simple_new (Some start) (Some (start + 1)) (Some 1) ;;
          Ok (RangeIndex r)
        else fallback
      else fallback
  | PyFloat _ _ => fallback
  end.

(** The integer that [op] computes from two integers, for the operators
    that stay in the integers. *)
Definition int_op (op : binop) (x k : Z) : option Z :=
  match op with
  | Add => Some (x + k)
  | RAdd => Some (k + x)
  | Sub => Some (x - k)
  | RSub => Some (k - x)
  | Mul => Some (x * k)
  | RMul => Some (k * x)
  | FloorDiv => if k =? 0 then None else Some (x / k)
  | TrueDiv | RTrueDiv => None
  end.

Fixpoint map_option {A B : Type} (f : A -> option B) (l : list A)
  : option (list B) :=
  match l with
  | [] => Some []
  | x :: l' =>
      match f x, map_option f l' with
      | Some y, Some ys => Some (y :: ys)
      | _, _ => None
      end
  end.

(** Modelled from the spec: the "generic elementwise path" of the dense
    index is not in this module; with an integral scalar it applies the
    operator to every element of the materialised data.  The elements of
    an index, when they are integers: *)
Definition int_values (i : index) : option (list Z) :=
  match i with
  | RangeIndex r => Some (tolist r)
  | Int64Index data => Some data
  | Float64Of _ => None
  | Int64Binop op data (PyInt k) => map_option (fun x => int_op op x k) data
  | Int64Binop _ _ (PyFloat _ _) => None
  end.


(** ** Vocabulary of the statements *)

(** [x] lies in the increasing progression from [lo] to [hi] by [k]. *)
Definition in_span (lo hi k x : Z) : Prop := lo <= x <= hi /\ (k | x - lo).

(** A list in strictly increasing order. *)
Definition ascending (l : list Z) : Prop := Sorted Z.lt l.

(** The stop of a range written exactly. *)
Definition canonical (r : range) : range :=
  mkrange (start r) (start r + len r * step r) (step r).

(** The range that [r[::-1]] builds. *)
Definition reversed (r : range) : range :=
  mkrange (compute_item r (len r + -1)) (compute_item r (-1)) (-1 * step r).

(** The increasing range with the elements of [r]: what [intersection]
    calls [first] and [second]. *)
Definition normalized (r : range) : range :=
  if step r <? 0 then reversed r else r.

(** What every pass of the loop of [_extended_gcd a b] keeps: both
    remainders are integer combinations of the inputs and have the gcd
    of the inputs. *)
Definition egcd_invariant (a b : Z) (st : egcd_state) : Prop :=
  eg_old_r st = a * eg_old_s st + b * eg_old_t st /\
  eg_r st = a * eg_s st + b * eg_t st /\
  Z.gcd (eg_old_r st) (eg_r st) = Z.gcd a b.

(** When [__floordiv__] answers with a RangeIndex. *)
Definition floordiv_preserved (self : range) (other : pynum) : bool :=
  match other with
  | PyInt k =>
      negb (k =? 0)
      && ((len self =? 0) || (len self =? 1)
          || ((start self mod k =? 0) && (step self mod k =? 0)))
  | PyFloat _ _ => false
  end.

(** The RangeIndex instances a program can hold: those the two
    constructors return, and those the operations build from instances
    already held. *)
Inductive reachable : range -> Prop :=
| reach_new s e st r :
    __new__ s e st = Ok r -> reachable r
| reach_simple_new s e st r :
    _simple_new s e st = Ok r -> reachable r
| reach_from_index a r :
    reachable a -> new_from_index a = Ok r -> reachable r
| reach_copy a r :
    reachable a -> copy a = Ok r -> reachable r
| reach_shallow_copy a r :
    reachable a -> _shallow_copy a = Ok r -> reachable r
| reach_slice a key r :
    reachable a -> getitem_slice a key = Ok r -> reachable r
| reach_intersection a b sort r :
    reachable a -> reachable b -> intersection a b sort = Ok r ->
    reachable r
| reach_union a b sort r :
    reachable a -> reachable b -> _union a b sort = Ok (RangeIndex r) ->
    reachable r
| reach_binop op step_op a k r :
    reachable a ->
    _evaluate_numeric_binop op step_op a k = Ok (RangeIndex r) ->
    reachable r
| reach_floordiv a other r :
    reachable a -> __floordiv__ a other = Ok (RangeIndex r) -> reachable r.

(** ** Further accessors *)

(** The two uses of [_minmax]. *)
Inductive minmax_meth : Type := MethMin | MethMax.

Definition meth_eqb (a b : minmax_meth) : bool :=
  match a, b with
  | MethMin, MethMin | MethMax, MethMax => true
  | _, _ => false
  end.

(** [_minmax(meth)]; [None] stands for [np.nan], the answer for an empty
    index. *)
Definition _minmax (self : range) (meth : minmax_meth) : option Z :=
  let no_steps := len self - 1 in
  if no_steps =? -1 then None
  else if (meth_eqb meth MethMin && (0 <? step self))
          || (meth_eqb meth MethMax && (step self <? 0))
  then Some (start self)
  else Some (start self + step self * no_steps).

Definition min (self : range) : option Z := _minmax self MethMin.
Definition max (self : range) : option Z := _minmax self MethMax.

(** [np.arange(a, b, st)] on integers lists what [range(a, b, st)] lists. *)
Definition arange (a b st : Z) : list Z := tolist (mkrange a b st).

Definition argsort (self : range) : list Z :=
  if 0 <? step self then arange 0 (len self) 1
  else arange (len self - 1) (-1) (-1).

(** [size] is [len(self)]. *)
Definition size (self : range) : Z := len self.

(** The elements of [l] at the positions [idx]. *)
Definition take (l : list Z) (idx : list Z) : list Z :=
  map (fun i => nth (Z.to_nat i) l 0) idx.

(** A list in weakly increasing, or weakly decreasing, order. *)
Definition nondecreasing (l : list Z) : Prop := Sorted Z.le l.
Definition nonincreasing (l : list Z) : Prop := Sorted Z.ge l.

(** * Properties *)

(** ** The built-in range *)

Lemma len_nonneg (r : range) : step r <> 0 -> 0 <= len r.
Proof.
  intros Hs. unfold len.
  destruct (0 <? step r) eqn:Hpos.
  - apply Z.ltb_lt in Hpos.
    destruct (stop r <=? start r) eqn:E; [lia|].
    apply Z.leb_gt in E.
    assert (0 <= (stop r - start r - 1) / step r)
      by (apply Z.div_pos; lia).
    lia.
  - apply Z.ltb_ge in Hpos.
    destruct (start r <=? stop r) eqn:E; [lia|].
    apply Z.leb_gt in E.
    assert (0 <= (start r - stop r - 1) / - step r)
      by (apply Z.div_pos; lia).
    lia.
Qed.

(** An ordinal [i] is below the length exactly when the [i]-th element
    has not passed [stop]. *)
Lemma lt_len_pos (r : range) (i : Z) :
  0 < step r -> 0 <= i ->
  (i < len r <-> start r + i * step r < stop r).
Proof.
  intros Hs Hi. unfold len.
  apply Z.ltb_lt in Hs as Hb. rewrite Hb.
  destruct (stop r <=? start r) eqn:E.
  - apply Z.leb_le in E. split; [lia | nia].
  - apply Z.leb_gt in E.
    pose proof (Z.div_mod (stop r - start r - 1) (step r) ltac:(lia)) as Hd.
    pose proof (Z.mod_pos_bound (stop r - start r - 1) (step r) Hs) as Hm.
    split; intros H; nia.
Qed.

Lemma lt_len_neg (r : range) (i : Z) :
  step r < 0 -> 0 <= i ->
  (i < len r <-> stop r < start r + i * step r).
Proof.
  intros Hs Hi. unfold len.
  assert (Hb : (0 <? step r) = false) by (apply Z.ltb_ge; lia).
  rewrite Hb.
  destruct (start r <=? stop r) eqn:E.
  - apply Z.leb_le in E. split; [lia | nia].
  - apply Z.leb_gt in E.
    pose proof (Z.div_mod (start r - stop r - 1) (- step r) ltac:(lia)) as Hd.
    pose proof (Z.mod_pos_bound (start r - stop r - 1) (- step r)
                  ltac:(lia)) as Hm.
    split; intros H; nia.
Qed.

Lemma In_tolist (r : range) (x : Z) :
  step r <> 0 ->
  (In x (tolist r) <-> exists i, 0 <= i < len r /\ x = compute_item r i).
Proof.
  intros Hs. unfold tolist. rewrite in_map_iff. split.
  - intros (n & <- & Hn). apply in_seq in Hn.
    exists (Z.of_nat n). split; [|reflexivity].
    pose proof (len_nonneg r Hs). lia.
  - intros (i & Hi & ->). exists (Z.to_nat i). split.
    + rewrite Z2Nat.id by lia. reflexivity.
    + apply in_seq. lia.
Qed.

(** Membership in the materialised list is what [x in r] computes. *)
Lemma In_tolist_contains (r : range) (x : Z) :
  step r <> 0 -> (In x (tolist r) <-> range_contains r x = true).
Proof.
  intros Hs. rewrite (In_tolist r x Hs). unfold range_contains, compute_item.
  destruct (0 <? step r) eqn:Hpos.
  - apply Z.ltb_lt in Hpos. split.
    + intros (i & Hi & ->).
      apply andb_true_intro; split.
      * apply andb_true_intro; split.
        -- apply Z.leb_le. nia.
        -- apply Z.ltb_lt. apply lt_len_pos; lia.
      * apply Z.eqb_eq.
        replace (start r + i * step r - start r) with (i * step r) by lia.
        apply Z.mod_mul; lia.
    + intros H. apply andb_prop in H as [H1 H3].
      apply andb_prop in H1 as [H1 H2].
      apply Z.leb_le in H1. apply Z.ltb_lt in H2. apply Z.eqb_eq in H3.
      apply Z.mod_divide in H3; [|lia]. destruct H3 as [k Hk].
      exists k. assert (0 <= k) by nia.
      split; [split; [lia|]|lia].
      apply lt_len_pos; lia.
  - apply Z.ltb_ge in Hpos. assert (Hneg : step r < 0) by lia. split.
    + intros (i & Hi & ->).
      apply andb_true_intro; split.
      * apply andb_true_intro; split.
        -- apply Z.ltb_lt. apply lt_len_neg; lia.
        -- apply Z.leb_le. nia.
      * apply Z.eqb_eq.
        replace (start r + i * step r - start r) with (i * step r) by lia.
        apply Z.mod_mul; lia.
    + intros H. apply andb_prop in H as [H1 H3].
      apply andb_prop in H1 as [H1 H2].
      apply Z.ltb_lt in H1. apply Z.leb_le in H2. apply Z.eqb_eq in H3.
      apply Z.mod_divide in H3; [|lia]. destruct H3 as [k Hk].
      exists k. assert (0 <= k) by nia.
      split; [split; [lia|]|lia].
      apply lt_len_neg; lia.
Qed.

Lemma length_tolist (r : range) : length (tolist r) = Z.to_nat (len r).
Proof. unfold tolist. rewrite length_map, length_seq. reflexivity. Qed.

Lemma nth_tolist (r : range) (n : nat) :
  (n < Z.to_nat (len r))%nat ->
  nth n (tolist r) 0 = compute_item r (Z.of_nat n).
Proof.
  intros Hn. unfold tolist.
  rewrite (nth_indep _ 0 (compute_item r (Z.of_nat 0)))
    by (rewrite length_map, length_seq; exact Hn).
  rewrite (map_nth (fun i => compute_item r (Z.of_nat i))).
  rewrite seq_nth by exact Hn. reflexivity.
Qed.

Lemma tolist_empty (r : range) : len r = 0 -> tolist r = [].
Proof. intros H. unfold tolist. rewrite H. reflexivity. Qed.

(** A range written with its exact stop has the length it was given. *)
Lemma len_exact (s st n : Z) :
  st <> 0 -> 0 <= n -> len (mkrange s (s + n * st) st) = n.
Proof.
  intros Hst Hn. unfold len; simpl.
  destruct (0 <? st) eqn:Hpos.
  - apply Z.ltb_lt in Hpos.
    destruct (s + n * st <=? s) eqn:E.
    + apply Z.leb_le in E. nia.
    + apply Z.leb_gt in E.
      replace (s + n * st - s - 1) with ((n - 1) * st + (st - 1)) by lia.
      rewrite Z.div_add_l by lia. rewrite Z.div_small by lia. lia.
  - apply Z.ltb_ge in Hpos.
    destruct (s <=? s + n * st) eqn:E.
    + apply Z.leb_le in E. nia.
    + apply Z.leb_gt in E.
      replace (s - (s + n * st) - 1) with ((n - 1) * - st + (- st - 1)) by lia.
      rewrite Z.div_add_l by lia. rewrite Z.div_small by lia. lia.
Qed.


Lemma len_canonical (r : range) : step r <> 0 -> len (canonical r) = len r.
Proof.
  intros Hs. unfold canonical.
  apply len_exact; [exact Hs | apply len_nonneg; exact Hs].
Qed.

Lemma tolist_canonical (r : range) :
  step r <> 0 -> tolist (canonical r) = tolist r.
Proof.
  intros Hs. unfold tolist. rewrite (len_canonical r Hs). reflexivity.
Qed.

(** Equality of ranges is equality of the sequences they denote. *)
Lemma range_eqb_tolist (r0 r1 : range) :
  step r0 <> 0 -> step r1 <> 0 ->
  (range_eqb r0 r1 = true <-> tolist r0 = tolist r1).
Proof.
  intros H0 H1.
  pose proof (len_nonneg r0 H0) as L0. pose proof (len_nonneg r1 H1) as L1.
  unfold range_eqb. split.
  - destruct (len r0 =? len r1) eqn:El; simpl; [|discriminate].
    apply Z.eqb_eq in El.
    destruct (len r0 =? 0) eqn:Ez.
    + apply Z.eqb_eq in Ez. intros _.
      rewrite (tolist_empty r0 Ez), (tolist_empty r1) by lia. reflexivity.
    + destruct (start r0 =? start r1) eqn:Es; simpl; [|discriminate].
      apply Z.eqb_eq in Es.
      destruct (len r0 =? 1) eqn:E1.
      * apply Z.eqb_eq in E1. intros _. unfold tolist, compute_item.
        rewrite <- El, E1, Es. simpl. reflexivity.
      * intros Hst. apply Z.eqb_eq in Hst. unfold tolist, compute_item.
        rewrite <- El, Es, Hst. reflexivity.
  - intros Heq.
    assert (El : len r0 = len r1).
    { pose proof (f_equal (@length Z) Heq) as Hl.
      rewrite !length_tolist in Hl. lia. }
    rewrite (proj2 (Z.eqb_eq _ _) El). simpl.
    destruct (len r0 =? 0) eqn:Ez; [reflexivity|].
    apply Z.eqb_neq in Ez.
    assert (Es : start r0 = start r1).
    { pose proof (nth_tolist r0 0 ltac:(lia)) as N0.
      pose proof (nth_tolist r1 0 ltac:(lia)) as N1.
      rewrite Heq, N1 in N0. unfold compute_item in N0. simpl in N0. lia. }
    rewrite (proj2 (Z.eqb_eq _ _) Es). simpl.
    destruct (len r0 =? 1) eqn:E1; [reflexivity|].
    apply Z.eqb_neq in E1. apply Z.eqb_eq.
    pose proof (nth_tolist r0 1 ltac:(lia)) as N0.
    pose proof (nth_tolist r1 1 ltac:(lia)) as N1.
    rewrite Heq, N1 in N0. unfold compute_item in N0.
    change (Z.of_nat 1) with 1 in N0. lia.
Qed.

(** Membership stated with divisibility, by the sign of the step. *)
Lemma In_tolist_pos (r : range) (x : Z) :
  0 < step r ->
  (In x (tolist r) <->
   start r <= x < stop r /\ (step r | x - start r)).
Proof.
  intros Hs. rewrite In_tolist_contains by lia. unfold range_contains.
  apply Z.ltb_lt in Hs as Hb. rewrite Hb.
  rewrite !andb_true_iff, Z.leb_le, Z.ltb_lt, Z.eqb_eq.
  rewrite Z.mod_divide by lia. tauto.
Qed.

Lemma In_tolist_neg (r : range) (x : Z) :
  step r < 0 ->
  (In x (tolist r) <->
   stop r < x <= start r /\ (step r | x - start r)).
Proof.
  intros Hs. rewrite In_tolist_contains by lia. unfold range_contains.
  assert (Hb : (0 <? step r) = false) by (apply Z.ltb_ge; lia). rewrite Hb.
  rewrite !andb_true_iff, Z.leb_le, Z.ltb_lt, Z.eqb_eq.
  rewrite Z.mod_divide by lia. tauto.
Qed.


Lemma range_slice_reverse (r : range) :
  range_slice r reverse_slice = Ok (reversed r).
Proof. reflexivity. Qed.

Lemma step_reversed (r : range) : step (reversed r) = - step r.
Proof. unfold reversed; cbn [step]. lia. Qed.

Lemma len_reversed (r : range) : step r <> 0 -> len (reversed r) = len r.
Proof.
  intros Hs. pose proof (len_nonneg r Hs) as Hn.
  unfold reversed, compute_item.
  replace (start r + -1 * step r)
    with (start r + (len r + -1) * step r + len r * (-1 * step r)) by lia.
  apply len_exact; lia.
Qed.

Lemma In_reversed (r : range) (x : Z) :
  step r <> 0 -> (In x (tolist (reversed r)) <-> In x (tolist r)).
Proof.
  intros Hs.
  rewrite (In_tolist (reversed r)) by (rewrite step_reversed; lia).
  rewrite (In_tolist r) by exact Hs.
  rewrite (len_reversed r Hs).
  unfold reversed, compute_item; cbn [start stop step]. split.
  - intros (i & Hi & ->). exists (len r - 1 - i). split; lia.
  - intros (i & Hi & ->). exists (len r - 1 - i). split; lia.
Qed.

(** Reversal turns the materialised list around. *)
Lemma tolist_reversed (r : range) :
  step r <> 0 -> tolist (reversed r) = rev (tolist r).
Proof.
  intros Hs. pose proof (len_nonneg r Hs) as Hn.
  apply (nth_ext _ _ 0 0).
  - rewrite length_rev, !length_tolist, (len_reversed r Hs). reflexivity.
  - intros n Hlt. rewrite length_tolist, (len_reversed r Hs) in Hlt.
    rewrite rev_nth by (rewrite length_tolist; exact Hlt).
    rewrite length_tolist.
    rewrite !nth_tolist by (rewrite ?(len_reversed r Hs); lia).
    unfold reversed, compute_item; cbn [start stop step].
    rewrite Nat2Z.inj_sub by lia. rewrite Z2Nat.id by lia.
    rewrite Nat2Z.inj_succ. lia.
Qed.

(** ** The constructors *)

Lemma simple_new_empty : _simple_new None None None = Ok (mkrange 0 0 1).
Proof. reflexivity. Qed.

Lemma or_default_stop (v : Z) : or_default (Some v) 0 = v.
Proof. unfold or_default. destruct (Z.eqb_spec v 0); congruence. Qed.

Lemma or_default_step (v : Z) : v <> 0 -> or_default (Some v) 1 = v.
Proof. intros H. unfold or_default. destruct (Z.eqb_spec v 0); congruence. Qed.

Lemma simple_new_ints (s e st : Z) :
  st <> 0 -> _simple_new (Some s) (Some e) (Some st) = Ok (mkrange s e st).
Proof.
  intros H. unfold _simple_new, set_range.
  rewrite or_default_stop, or_default_step by exact H. reflexivity.
Qed.

Lemma new_ints (s e st : Z) :
  st <> 0 -> __new__ (Some s) (Some e) (Some st) = Ok (mkrange s e st).
Proof.
  intros H. unfold __new__. cbn [_all_none].
  destruct (Z.eqb_spec st 0); [contradiction|].
  unfold set_range.
  rewrite or_default_stop, or_default_step by exact H. reflexivity.
Qed.

Lemma range_eta (r : range) : mkrange (start r) (stop r) (step r) = r.
Proof. destruct r; reflexivity. Qed.

Lemma from_range_ok (r : range) : step r <> 0 -> from_range r = Ok r.
Proof.
  intros H. unfold from_range. rewrite new_ints by exact H.
  rewrite range_eta. reflexivity.
Qed.

Lemma getitem_reverse (r : range) :
  step r <> 0 -> getitem_slice r reverse_slice = Ok (reversed r).
Proof.
  intros H. unfold getitem_slice. rewrite range_slice_reverse. simpl.
  apply from_range_ok. rewrite step_reversed. lia.
Qed.

(** ** The extended Euclidean algorithm *)

Section ExtendedGcd.

Variables a b : Z.

Lemma egcd_inv_init : egcd_invariant a b (mkegcd 0 1 1 0 b a).
Proof. unfold egcd_invariant; cbn [eg_s eg_old_s eg_t eg_old_t eg_r eg_old_r]. lia. Qed.

Lemma egcd_body_r (st : egcd_state) :
  eg_r st <> 0 -> eg_r (egcd_body st) = eg_old_r st mod eg_r st.
Proof.
  intros H. unfold egcd_body; cbn [eg_r].
  rewrite (Z.mod_eq (eg_old_r st) (eg_r st)) by exact H. lia.
Qed.

Lemma egcd_body_inv (st : egcd_state) :
  egcd_invariant a b st -> egcd_invariant a b (egcd_body st).
Proof.
  intros (H1 & H2 & H3). unfold egcd_invariant, egcd_body.
  cbn [eg_s eg_old_s eg_t eg_old_t eg_r eg_old_r].
  repeat split.
  - exact H2.
  - rewrite H1 at 1. rewrite H2 at 2. lia.
  - rewrite <- H3.
    replace (eg_old_r st - eg_old_r st / eg_r st * eg_r st)
      with (eg_old_r st + (- (eg_old_r st / eg_r st)) * eg_r st) by lia.
    rewrite Z.gcd_add_mult_diag_r. apply Z.gcd_comm.
Qed.

Lemma egcd_body_decreases (st : egcd_state) :
  eg_r st <> 0 -> Z.abs (eg_r (egcd_body st)) < Z.abs (eg_r st).
Proof.
  intros H. rewrite egcd_body_r by exact H.
  destruct (Z.lt_ge_cases 0 (eg_r st)) as [Hp | Hn].
  - pose proof (Z.mod_pos_bound (eg_old_r st) (eg_r st) Hp). lia.
  - pose proof (Z.mod_neg_bound (eg_old_r st) (eg_r st) ltac:(lia)). lia.
Qed.

(** With enough passes allowed, [egcd_loop] is the run of the loop. *)
Lemma egcd_loop_run (fuel : nat) (st : egcd_state) :
  Z.abs (eg_r st) <= Z.of_nat fuel -> egcd_run st (egcd_loop fuel st).
Proof.
  revert st. induction fuel as [|fuel IH]; intros st Hf; cbn [egcd_loop].
  - replace (eg_r st =? 0) with true by (symmetry; apply Z.eqb_eq; lia).
    apply egcd_run_exit. lia.
  - destruct (Z.eqb_spec (eg_r st) 0) as [E | E].
    + apply egcd_run_exit. exact E.
    + apply egcd_run_iter; [exact E|].
      apply IH. pose proof (egcd_body_decreases st E). lia.
Qed.

Lemma egcd_run_bezout (st : egcd_state) (res : Z * Z * Z) :
  egcd_run st res -> egcd_invariant a b st ->
  let '(g, x, y) := res in a * x + b * y = g /\ Z.abs g = Z.gcd a b.
Proof.
  induction 1 as [st E | st res E _ IH]; intros Hinv.
  - destruct Hinv as (H1 & _ & H3). rewrite E, Z.gcd_0_r in H3. lia.
  - apply IH. apply egcd_body_inv. exact Hinv.
Qed.

Lemma egcd_run_nonneg (st : egcd_state) (res : Z * Z * Z) :
  egcd_run st res -> 0 <= eg_r st -> 0 <= eg_old_r st ->
  0 <= fst (fst res).
Proof.
  induction 1 as [st E | st res E _ IH]; intros Hr Ho.
  - exact Ho.
  - apply IH.
    + rewrite egcd_body_r by exact E.
      apply Z.mod_pos_bound. lia.
    + unfold egcd_body; cbn [eg_old_r]. exact Hr.
Qed.

Lemma extended_gcd_run :
  egcd_run (mkegcd 0 1 1 0 b a) (_extended_gcd a b).
Proof.
  unfold _extended_gcd. apply egcd_loop_run. cbn [eg_r]. lia.
Qed.

(** Bezout's identity, for any two integers. *)
Lemma extended_gcd_bezout :
  let '(g, s, t) := _extended_gcd a b in
  a * s + b * t = g /\ Z.abs g = Z.gcd a b.
Proof.
  apply (egcd_run_bezout _ _ extended_gcd_run egcd_inv_init).
Qed.

Lemma extended_gcd_pos :
  0 < a -> 0 < b ->
  let '(g, s, t) := _extended_gcd a b in
  a * s + b * t = g /\ g = Z.gcd a b /\ 0 < g.
Proof.
  intros Ha Hb.
  pose proof extended_gcd_bezout as Hz.
  pose proof (egcd_run_nonneg _ _ extended_gcd_run) as Hn.
  cbn [eg_r eg_old_r] in Hn. specialize (Hn ltac:(lia) ltac:(lia)).
  destruct (_extended_gcd a b) as [[g s] t]. cbn [fst] in Hn.
  destruct Hz as [Hz1 Hz2].
  assert (0 < Z.gcd a b).
  { pose proof (Z.gcd_nonneg a b).
    assert (Z.gcd a b <> 0) by (intros E; apply Z.gcd_eq_0_l in E; lia).
    lia. }
  repeat split; lia.
Qed.

End ExtendedGcd.

(** ** Two congruences at once

    The integers that lie in both residue classes [a0 mod a] and
    [b0 mod b] form one residue class modulo the least common multiple;
    the intersection picks its representative from Bezout's identity. *)

Lemma congruences_meet (a b g s t a0 b0 x : Z) :
  0 < a -> 0 < b -> g = Z.gcd a b -> a * s + b * t = g ->
  (g | a0 - b0) ->
  (((a | x - a0) /\ (b | x - b0)) <->
   (a * b / g | x - (a0 + (b0 - a0) * a / g * s))).
Proof.
  intros Ha Hb Hg Hbez [d Hd].
  assert (Hgpos : 0 < g).
  { subst g. pose proof (Z.gcd_nonneg a b).
    assert (Z.gcd a b <> 0) by (intros E; apply Z.gcd_eq_0_l in E; lia).
    lia. }
  destruct (Z.gcd_divide_l a b) as [a' Ha'].
  destruct (Z.gcd_divide_r a b) as [b' Hb'].
  rewrite <- Hg in Ha', Hb'.
  assert (Hq : (b0 - a0) * a / g = - d * a).
  { replace ((b0 - a0) * a) with (- d * a * g) by lia.
    apply Z.div_mul. lia. }
  assert (HL : a * b / g = a * b').
  { replace (a * b) with (a * b' * g) by lia.
    apply Z.div_mul. lia. }
  rewrite Hq, HL. split.
  - intros [[k Hk] [l Hl]].
    assert (Hlcm : Z.lcm a b = a * b').
    { unfold Z.lcm. rewrite <- Hg.
      replace (b / g) with b' by (rewrite Hb' at 1; symmetry; apply Z.div_mul; lia).
      apply Z.abs_eq. nia. }
    rewrite <- Hlcm. apply Z.lcm_least.
    + exists (k + d * s). lia.
    + exists (l - d * t).
      replace (x - (a0 + - d * a * s)) with (x - b0 + (b0 - a0) + d * (a * s)) by lia.
      replace (a * s) with (g - b * t) by lia. lia.
  - intros [k Hk]. split.
    + exists (k * b' - d * s). lia.
    + exists (k * a' + d * t).
      replace (x - b0) with (x - (a0 + - d * a * s) + (a0 - b0) - d * (a * s)) by lia.
      replace (a * s) with (g - b * t) by lia. rewrite Hk, Hd. nia.
Qed.

(** [_min_fitting_element] yields the least member of the residue class
    of [start] that is not below the limit. *)
Lemma min_fitting_spec (self : range) (lower_limit : Z) :
  step self <> 0 ->
  let m := _min_fitting_element self lower_limit in
  lower_limit <= m < lower_limit + Z.abs (step self) /\
  (Z.abs (step self) | m - start self).
Proof.
  intros Hs. cbv zeta. unfold _min_fitting_element.
  set (k := Z.abs (step self)). assert (Hk : 0 < k) by (subst k; lia).
  set (n := - (lower_limit - start self)).
  pose proof (Z.div_mod n k ltac:(lia)) as Hd.
  pose proof (Z.mod_pos_bound n k Hk) as Hm.
  split.
  - subst n. nia.
  - exists (- (n / k)). lia.
Qed.

(** ** Intersection *)


Lemma normalized_ok (r : range) :
  (if step r <? 0 then range_slice r reverse_slice else Ok r)
  = Ok (normalized r).
Proof. unfold normalized. destruct (step r <? 0); reflexivity. Qed.

Lemma step_normalized (r : range) : step r <> 0 -> 0 < step (normalized r).
Proof.
  intros H. unfold normalized.
  destruct (Z.ltb_spec (step r) 0); [rewrite step_reversed|]; lia.
Qed.

Lemma In_normalized (r : range) (x : Z) :
  step r <> 0 -> (In x (tolist (normalized r)) <-> In x (tolist r)).
Proof.
  intros H. unfold normalized.
  destruct (step r <? 0); [apply In_reversed; exact H | tauto].
Qed.

Lemma In_empty_range (x : Z) : ~ In x (tolist (mkrange 0 0 1)).
Proof. intros H. exact H. Qed.

Lemma len_zero_not_In (r : range) (x : Z) : len r = 0 -> ~ In x (tolist r).
Proof. intros H. rewrite (tolist_empty r H). intros []. Qed.

Lemma lcm_quotient_pos (a b : Z) : 0 < a -> 0 < b -> 0 < a * b / Z.gcd a b.
Proof.
  intros Ha Hb.
  destruct (Z.gcd_divide_r a b) as [b' Hb'].
  pose proof (Z.gcd_nonneg a b).
  assert (Z.gcd a b <> 0) by (intros E; apply Z.gcd_eq_0_l in E; lia).
  replace (a * b) with (a * b' * Z.gcd a b) by lia.
  rewrite Z.div_mul by lia. nia.
Qed.

(** The heart of [intersection], for two increasing ranges: the clipped
    residue class modulo the least common multiple holds exactly the
    common elements, and nothing is common when the phases differ or the
    intervals miss each other. *)
Lemma intersection_increasing (first second : range) :
  0 < step first -> 0 < step second ->
  let int_low := Z.max (start first) (start second) in
  let int_high := Z.min (stop first) (stop second) in
  let '(gcd, s, t) := _extended_gcd (step first) (step second) in
  let tmp_start :=
    start first + (start second - start first) * step first / gcd * s in
  let new_step := step first * step second / gcd in
  let new_start :=
    _min_fitting_element (mkrange tmp_start int_high new_step) int_low in
  0 < gcd /\ 0 < new_step /\
  (((start first - start second) mod gcd <> 0 \/ int_high <= int_low) ->
   forall x, ~ (In x (tolist first) /\ In x (tolist second))) /\
  ((start first - start second) mod gcd = 0 ->
   forall x, In x (tolist (mkrange new_start int_high new_step)) <->
             In x (tolist first) /\ In x (tolist second)).
Proof.
  intros Ha Hb. cbv zeta.
  pose proof (extended_gcd_pos (step first) (step second) Ha Hb) as Hg.
  destruct (_extended_gcd (step first) (step second)) as [[g s] t].
  destruct Hg as (Hbez & Hg & Hgpos).
  assert (HL : 0 < step first * step second / g)
    by (rewrite Hg; apply lcm_quotient_pos; assumption).
  split; [exact Hgpos|]. split; [exact HL|]. split.
  - intros Hno x [H1 H2].
    apply In_tolist_pos in H1; [|exact Ha].
    apply In_tolist_pos in H2; [|exact Hb].
    destruct H1 as [B1 [k1 D1]], H2 as [B2 [k2 D2]].
    destruct Hno as [Hph | Hiv]; [|lia].
    apply Hph. apply Z.mod_divide; [lia|].
    destruct (Z.gcd_divide_l (step first) (step second)) as [a' Ha'].
    destruct (Z.gcd_divide_r (step first) (step second)) as [b' Hb'].
    rewrite <- Hg in Ha', Hb'.
    exists (k2 * b' - k1 * a'). nia.
  - intros Hph x.
    apply Z.mod_divide in Hph; [|lia].
    set (x0 := start first + (start second - start first) * step first / g * s).
    set (L := step first * step second / g) in *.
    pose proof (min_fitting_spec (mkrange x0 (Z.min (stop first) (stop second)) L)
                  (Z.max (start first) (start second))) as Hm.
    cbn [step start] in Hm. specialize (Hm ltac:(lia)). cbv zeta in Hm.
    set (m := _min_fitting_element _ _) in *.
    rewrite Z.abs_eq in Hm by lia. destruct Hm as [Hm1 Hm2].
    rewrite In_tolist_pos by (cbn [step]; lia). cbn [start stop step].
    rewrite (In_tolist_pos first) by exact Ha.
    rewrite (In_tolist_pos second) by exact Hb.
    pose proof (congruences_meet (step first) (step second) g s t
                  (start first) (start second) x Ha Hb Hg Hbez Hph) as Hc.
    fold x0 in Hc. fold L in Hc.
    assert (Hcls : (L | x - m) <-> (L | x - x0)).
    { destruct Hm2 as [j Hj]. split; intros [k Hk].
      - exists (k + j). lia.
      - exists (k - j). lia. }
    split.
    + intros [Hb1 Hd]. apply Hcls in Hd as Hd'. apply Hc in Hd'.
      destruct Hd' as [D1 D2]. repeat split; try assumption; lia.
    + intros [[B1 D1] [B2 D2]].
      assert (Hd : (L | x - x0)) by (apply Hc; split; assumption).
      apply Hcls in Hd as Hd'. split; [|exact Hd'].
      split; [|lia].
      destruct Hd' as [k Hk].
      assert (0 <= k) by nia. nia.
Qed.

Lemma sort_values_spec (r : range) :
  step r <> 0 ->
  exists r', sort_values r = Ok r' /\ 0 < step r' /\
             forall x, In x (tolist r') <-> In x (tolist r).
Proof.
  intros H. unfold sort_values.
  destruct (Z.ltb_spec (step r) 0).
  - exists (reversed r). split; [apply getitem_reverse; exact H|].
    split; [rewrite step_reversed; lia|].
    intros x. apply In_reversed. exact H.
  - exists r. split; [reflexivity|]. split; [lia | tauto].
Qed.

(** [intersection] returns a RangeIndex, with a step other than zero,
    whose elements are the common elements of its operands. *)
Lemma intersection_spec (A B : range) (sort : sort_kw) :
  step A <> 0 -> step B <> 0 ->
  exists r,
    intersection A B sort = Ok r /\ step r <> 0 /\
    (forall x, In x (tolist r) <-> In x (tolist A) /\ In x (tolist B)).
Proof.
  intros HA HB. unfold intersection.
  destruct (equals A B) eqn:Eeq.
  { exists A. split; [reflexivity|]. split; [exact HA|]. intros x.
    apply range_eqb_tolist in Eeq; [|assumption..]. rewrite <- Eeq. tauto. }
  destruct ((len A =? 0) || (len B =? 0)) eqn:Eempty.
  { exists (mkrange 0 0 1). split; [apply simple_new_empty|].
    split; [discriminate|]. intros x.
    split; [intros []|]. intros [H1 H2].
    apply orb_true_iff in Eempty. destruct Eempty as [E | E];
      apply Z.eqb_eq in E; eapply len_zero_not_In; eassumption. }
  rewrite !normalized_ok. cbn [bind].
  pose proof (step_normalized A HA) as Ha.
  pose proof (step_normalized B HB) as Hb.
  pose proof (intersection_increasing (normalized A) (normalized B) Ha Hb) as Hcore.
  cbv zeta in Hcore.
  destruct (_extended_gcd (step (normalized A)) (step (normalized B)))
    as [[g s] t].
  destruct Hcore as (Hg & HL & Hnone & Hsome).
  destruct (Z.leb_spec (Z.min (stop (normalized A)) (stop (normalized B)))
                       (Z.max (start (normalized A)) (start (normalized B))))
    as [Hiv | Hiv].
  { exists (mkrange 0 0 1). split; [apply simple_new_empty|].
    split; [discriminate|]. intros x.
    split; [intros []|]. rewrite <- (In_normalized A), <- (In_normalized B) by assumption.
    apply Hnone. right. exact Hiv. }
  unfold py_mod, py_floordiv.
  replace (g =? 0) with false by (symmetry; apply Z.eqb_neq; lia).
  cbn [bind].
  destruct (Z.eqb_spec ((start (normalized A) - start (normalized B)) mod g) 0)
    as [Hph | Hph]; cbn [negb].
  2:{ exists (mkrange 0 0 1). split; [apply simple_new_empty|].
    split; [discriminate|]. intros x.
    split; [intros []|]. rewrite <- (In_normalized A), <- (In_normalized B) by assumption.
    apply Hnone. left. exact Hph. }
  specialize (Hsome Hph).
  rewrite simple_new_ints by lia. cbn [bind start stop step].
  rewrite simple_new_ints by lia. cbn [bind start stop step].
  set (res := mkrange _ _ _) in *.
  assert (Hres : step res <> 0) by (subst res; cbn [step]; lia).
  assert (Hsome' : forall x, In x (tolist res) <->
                             In x (tolist A) /\ In x (tolist B)).
  { intros x. rewrite Hsome, In_normalized, In_normalized by assumption.
    tauto. }
  replace (step (normalized A) * step (normalized B) / g <? 0) with false
    by (symmetry; apply Z.ltb_ge; lia).
  rewrite (getitem_reverse res Hres).
  destruct ((step A <? 0) && (step B <? 0)); cbn [eqb negb bind].
  - assert (Hrev : step (reversed res) <> 0) by (rewrite step_reversed; lia).
    destruct sort.
    + destruct (sort_values_spec (reversed res) Hrev) as (r' & E & Hp & Hin).
      exists r'. split; [exact E|]. split; [lia|]. intros x.
      rewrite Hin, In_reversed by exact Hres. apply Hsome'.
    + exists (reversed res). split; [reflexivity|]. split; [exact Hrev|].
      intros x.
      rewrite In_reversed by exact Hres. apply Hsome'.
  - destruct sort.
    + destruct (sort_values_spec res Hres) as (r' & E & Hp & Hin).
      exists r'. split; [exact E|]. split; [lia|]. intros x.
      rewrite Hin. apply Hsome'.
    + exists res. split; [reflexivity|]. split; [exact Hres|]. exact Hsome'.
Qed.


(** C1: for all progressions [A] and [B] (and either value of the sort
    keyword), [intersection] returns a progression whose element set is
    the intersection of the element sets of [A] and [B], and the results
    of [intersection A B] and [intersection B A] have the same elements. *)
Theorem C1_intersection_elements (A B : range) (sort : sort_kw) :
  step A <> 0 -> step B <> 0 ->
  exists rab rba,
    intersection A B sort = Ok rab /\
    intersection B A sort = Ok rba /\
    (forall x, In x (tolist rab) <-> In x (tolist A) /\ In x (tolist B)) /\
    (forall x, In x (tolist rab) <-> In x (tolist rba)).
Proof.
  intros HA HB.
  destruct (intersection_spec A B sort HA HB) as (rab & Eab & _ & Hab).
  destruct (intersection_spec B A sort HB HA) as (rba & Eba & _ & Hba).
  exists rab, rba.
  split; [exact Eab|]. split; [exact Eba|]. split; [exact Hab|].
  intros x. rewrite Hab, Hba. tauto.
Qed.

Lemma C1_intersection_elements_witness :
  exists rab rba,
    intersection (mkrange 0 30 4) (mkrange 30 0 (-6)) SortFalse = Ok rab /\
    intersection (mkrange 30 0 (-6)) (mkrange 0 30 4) SortFalse = Ok rba /\
    (forall x, In x (tolist rab) <->
               In x (tolist (mkrange 0 30 4)) /\
               In x (tolist (mkrange 30 0 (-6)))) /\
    (forall x, In x (tolist rab) <-> In x (tolist rba)).
Proof.
  apply (C1_intersection_elements (mkrange 0 30 4) (mkrange 30 0 (-6))
           SortFalse); cbn [step]; lia.
Defined.

(** Disjoint parity classes; overlapping unit ranges. *)
Example intersection_parity :
  intersection (mkrange 0 10 2) (mkrange 1 10 2) SortFalse
  = Ok (mkrange 0 0 1).
Proof. reflexivity. Qed.

Example intersection_overlap :
  intersection (mkrange 0 10 1) (mkrange 5 15 1) SortFalse
  = Ok (mkrange 5 10 1).
Proof. reflexivity. Qed.


(** ** Union *)


Lemma divide_gap (k d : Z) : 0 < k -> (k | d) -> 0 < d -> k <= d.
Proof. intros Hk [j Hj] Hd. assert (0 < j) by nia. nia. Qed.

Lemma divide_shift (k x a b : Z) : (k | a - b) -> (k | x - a) -> (k | x - b).
Proof.
  intros H1 H2. replace (x - b) with ((x - a) + (a - b)) by lia.
  apply Z.divide_add_r; assumption.
Qed.

Lemma divide_flip (k a b : Z) : (k | a - b) -> (k | b - a).
Proof.
  intros H. replace (b - a) with (- (a - b)) by lia.
  apply Z.divide_opp_r. exact H.
Qed.







(** A non-empty range seen from its least element upwards. *)
Lemma increasing_view (r : range) :
  step r <> 0 -> 0 < len r ->
  forall lo k hi,
    (lo, k, hi) =
      (if step r <? 0
       then (start r + step r * (len r - 1), - step r, start r)
       else (start r, step r, start r + step r * (len r - 1))) ->
    0 < k /\ hi = lo + k * (len r - 1) /\
    forall x, In x (tolist r) <-> in_span lo hi k x.
Proof.
  intros Hs Hl lo k hi E.
  destruct (Z.ltb_spec (step r) 0) as [Hneg | Hpos];
    injection E as -> -> ->.
  - split; [lia|]. split; [lia|]. intros x.
    rewrite In_tolist by exact Hs. unfold in_span, compute_item. split.
    + intros (i & Hi & ->). split; [nia|].
      exists (len r - 1 - i). lia.
    + intros [[B1 B2] [j Hj]].
      exists (len r - 1 - j).
      assert (0 <= j) by nia.
      assert (j <= len r - 1) by nia.
      split; lia.
  - split; [lia|]. split; [lia|]. intros x.
    rewrite In_tolist by exact Hs. unfold in_span, compute_item. split.
    + intros (i & Hi & ->). split; [nia|]. exists i. lia.
    + intros [[B1 B2] [j Hj]].
      exists j.
      assert (0 <= j) by nia.
      assert (j <= len r - 1) by nia.
      split; lia.
Qed.

Lemma in_span_point (lo k k' x : Z) :
  in_span lo lo k x <-> in_span lo lo k' x.
Proof.
  unfold in_span. split; intros [B _]; (split; [exact B|]);
    replace (x - lo) with 0 by lia; apply Z.divide_0_r.
Qed.

Lemma equals_false_starts (A B : range) :
  equals A B = false -> len A = 1 -> len B = 1 -> start A <> start B.
Proof.
  unfold equals, range_eqb. intros E HA HB. rewrite HA, HB in E.
  cbn in E. destruct (Z.eqb_spec (start A) (start B)); [discriminate|assumption].
Qed.

(** What [union_operands] hands to the branches. *)
Lemma union_operands_spec (A B : range) :
  step A <> 0 -> step B <> 0 -> 0 < len A -> 0 < len B ->
  equals A B = false ->
  forall ss ks es so ko eo,
    union_operands A B = (ss, ks, es, (so, ko, eo)) ->
    0 < ks /\ 0 < ko /\ ss <= es /\ so <= eo /\
    (ks | es - ss) /\ (ko | eo - so) /\
    (forall x, In x (tolist A) <-> in_span ss es ks x) /\
    (forall x, In x (tolist B) <-> in_span so eo ko x).
Proof.
  intros HA HB LA LB Hne ss ks es so ko eo E.
  unfold union_operands in E.
  destruct (if step A <? 0
            then (start A + step A * (len A - 1), - step A, start A)
            else (start A, step A, start A + step A * (len A - 1)))
    as [[loA kA] hiA] eqn:EA.
  destruct (if step B <? 0
            then (start B + step B * (len B - 1), - step B, start B)
            else (start B, step B, start B + step B * (len B - 1)))
    as [[loB kB] hiB] eqn:EB.
  destruct (increasing_view A HA LA loA kA hiA (eq_sym EA)) as (PA & EhA & VA).
  destruct (increasing_view B HB LB loB kB hiB (eq_sym EB)) as (PB & EhB & VB).
  assert (DA : (kA | hiA - loA)) by (exists (len A - 1); lia).
  assert (DB : (kB | hiB - loB)) by (exists (len B - 1); lia).
  assert (OA : loA <= hiA) by nia.
  assert (OB : loB <= hiB) by nia.
  destruct (Z.eqb_spec (len A) 1) as [A1 | A1];
    destruct (Z.eqb_spec (len B) 1) as [B1 | B1];
    cbn [andb] in E; injection E as <- <- <- <- <- <-.
  - pose proof (equals_false_starts A B Hne A1 B1).
    assert (hiA = loA) by (rewrite EhA, A1; lia).
    assert (hiB = loB) by (rewrite EhB, B1; lia).
    clear EhA EhB. subst hiA hiB.
    split; [lia|]. split; [lia|]. split; [lia|]. split; [lia|].
    split; [rewrite Z.sub_diag; apply Z.divide_0_r|].
    split; [rewrite Z.sub_diag; apply Z.divide_0_r|].
    split; intros x.
    + rewrite VA. apply in_span_point.
    + rewrite VB. apply in_span_point.
  - assert (hiA = loA) by (rewrite EhA, A1; lia). clear EhA. subst hiA.
    split; [lia|]. split; [lia|]. split; [lia|]. split; [lia|].
    split; [rewrite Z.sub_diag; apply Z.divide_0_r|].
    split; [exact DB|].
    split; intros x.
    + rewrite VA. apply in_span_point.
    + apply VB.
  - assert (hiB = loB) by (rewrite EhB, B1; lia). clear EhB. subst hiB.
    split; [lia|]. split; [lia|]. split; [lia|]. split; [lia|].
    split; [exact DA|].
    split; [rewrite Z.sub_diag; apply Z.divide_0_r|].
    split; intros x.
    + apply VA.
    + rewrite VB. apply in_span_point.
  - split; [lia|]. split; [lia|]. split; [lia|]. split; [lia|].
    split; [exact DA|]. split; [exact DB|].
    split; intros x; [apply VA | apply VB].
Qed.




(** ** Ascending lists *)


Lemma ascending_map_seq (f : nat -> Z) (n a : nat) :
  (forall i, f i < f (S i)) -> ascending (map f (seq a n)).
Proof.
  intros Hf. revert a. induction n as [|n IH]; intros a; cbn [seq map].
  - constructor.
  - constructor; [apply IH|].
    destruct n; cbn [seq map]; constructor. apply Hf.
Qed.

Lemma ascending_tolist (r : range) : 0 < step r -> ascending (tolist r).
Proof.
  intros Hs. unfold tolist. apply ascending_map_seq.
  intros i. unfold compute_item. rewrite Nat2Z.inj_succ. nia.
Qed.





(** ** Floats that hold whole numbers *)

Lemma round_float_exact (z : Z) : Z.abs z < 2 ^ 53 -> round_float z = z.
Proof.
  intros H. unfold round_float.
  destruct (Z.ltb_spec (Z.abs z) (2 ^ 53)); [reflexivity | lia].
Qed.

Lemma round_float_pos (z : Z) : 0 < z -> 0 < round_float z.
Proof.
  intros Hz. unfold round_float.
  destruct (Z.ltb_spec (Z.abs z) (2 ^ 53)) as [|Hbig]; [exact Hz|].
  rewrite Z.abs_eq in * by lia. rewrite Z.sgn_pos by exact Hz.
  set (e := Z.log2 z - 52).
  assert (H53 : 53 <= Z.log2 z).
  { apply Z.log2_le_pow2; [exact Hz | exact Hbig]. }
  assert (He : 0 <= e) by (subst e; lia).
  assert (Hp : 0 < 2 ^ e) by (apply Z.pow_pos_nonneg; lia).
  assert (Hle : 2 ^ e <= z).
  { pose proof (Z.log2_spec z Hz) as [Hl _].
    assert (2 ^ e <= 2 ^ Z.log2 z)
      by (apply Z.pow_le_mono_r; subst e; lia).
    lia. }
  assert (Hq : 1 <= z / 2 ^ e).
  { apply Z.div_le_lower_bound; lia. }
  destruct ((2 ^ e <? 2 * (z mod 2 ^ e))
            || ((2 * (z mod 2 ^ e) =? 2 ^ e) && Z.odd (z / 2 ^ e)));
    nia.
Qed.

Lemma exact_below_overflow : 2 ^ 53 <= float_overflow.
Proof. unfold float_overflow. apply Z.pow_le_mono_r; lia. Qed.

Lemma float_of_int_exact (z : Z) :
  Z.abs z < 2 ^ 53 -> float_of_int z = Ok z.
Proof.
  intros H. unfold float_of_int. rewrite (round_float_exact z H).
  pose proof exact_below_overflow.
  destruct (Z.leb_spec float_overflow (Z.abs z)); [lia | reflexivity].
Qed.

Lemma float_of_int_pos (z f : Z) :
  float_of_int z = Ok f -> 0 < z -> 0 < f.
Proof.
  unfold float_of_int.
  destruct (float_overflow <=? Z.abs (round_float z)); [discriminate|].
  intros H Hz. injection H as <-. apply round_float_pos. exact Hz.
Qed.

Lemma py_mod_ok (a b : Z) : b <> 0 -> py_mod a b = Ok (a mod b).
Proof.
  intros H. unfold py_mod. destruct (Z.eqb_spec b 0); [contradiction|reflexivity].
Qed.

Lemma even_half (k : Z) : 0 < k -> k mod 2 = 0 -> 0 < k / 2 /\ k = 2 * (k / 2).
Proof.
  intros Hk He. pose proof (Z.div_mod k 2 ltac:(lia)). lia.
Qed.

(** Below [2^53] the floats of the half-step branch are the integers
    themselves. *)
Lemma half_step_floats_exact (hi k : Z) :
  0 < k -> Z.abs hi + k < 2 ^ 53 ->
  true_div_by_2 k = Ok (k / 2) /\
  float_of_int hi = Ok hi /\
  float_add hi (k / 2) = Ok (hi + k / 2).
Proof.
  intros Hk Hb.
  assert (0 <= k / 2 <= k).
  { split; [apply Z.div_pos; lia|].
    apply Z.div_le_upper_bound; lia. }
  unfold true_div_by_2, float_add.
  rewrite !float_of_int_exact by lia. auto.
Qed.


(** The fast exits hand back one of the operands, which then holds the
    whole union. *)
Lemma union_fast (A B : range) (sort : sort_kw) :
  step A <> 0 -> step B <> 0 -> union_fast_exit A B = true ->
  exists r,
    _union A B sort = Ok (RangeIndex r) /\ (r = A \/ r = B) /\
    forall x, In x (tolist r) <-> In x (tolist A) \/ In x (tolist B).
Proof.
  intros HA HB F. unfold _union. rewrite F. unfold base_union.
  unfold union_fast_exit in F.
  destruct (Z.eqb_spec (len B) 0) as [EB | EB]; cbn [orb] in *.
  - exists A. split; [reflexivity|]. split; [left; reflexivity|].
    intros x. pose proof (len_zero_not_In B x EB). tauto.
  - destruct (equals A B) eqn:Eq; cbn [orb] in *.
    + exists A. split; [reflexivity|]. split; [left; reflexivity|].
      apply range_eqb_tolist in Eq; [|assumption..].
      intros x. rewrite <- Eq. tauto.
    + apply Z.eqb_eq in F.
      exists B. split; [reflexivity|]. split; [right; reflexivity|].
      intros x. pose proof (len_zero_not_In A x F). tauto.
Qed.

Lemma half_step_slip_general (A B : range) :
  half_step_slip A B = true -> union_fast_exit A B = false.
Proof.
  unfold half_step_slip, half_step_reached.
  destruct (union_operands A B) as [[[ss ks] es] [[so ko] eo]].
  destruct (union_fast_exit A B); [cbn; discriminate | reflexivity].
Qed.




(** The half-step branch taken with starts less than half a step apart:
    [0, 4] and [1, 5] give [0, 2, 4, 6]. *)
Lemma union_half_step_slip_example :
  half_step_slip (mkrange 0 8 4) (mkrange 1 9 4) = true /\
  _union (mkrange 0 8 4) (mkrange 1 9 4) SortNone
  = Ok (RangeIndex (mkrange 0 7 2)) /\
  tolist (mkrange 0 7 2) = [0; 2; 4; 6] /\
  tolist (mkrange 0 8 4) = [0; 4] /\
  tolist (mkrange 1 9 4) = [1; 5].
Proof. repeat split; vm_compute; reflexivity. Qed.

(** Beyond [2^53] the floats round: the interleaved ranges from [2^60]
    and [2^60 + 1] by 2 get the stop [2^60], hence an empty index; and
    with step [2^61 + 200] the float half step is [2^60], so starts
    [2^60 + 50] apart fail the test and go to the dense fallback. *)
Lemma union_half_step_rounded_example :
  _union (mkrange (2 ^ 60) (2 ^ 60 + 10) 2)
         (mkrange (2 ^ 60 + 1) (2 ^ 60 + 11) 2) SortNone
  = Ok (RangeIndex (mkrange (2 ^ 60) (2 ^ 60) 1)) /\
  tolist (mkrange (2 ^ 60) (2 ^ 60) 1) = [] /\
  half_step_test 0 (2 ^ 61 + 200) (2 ^ 61 + 200)
                 (2 ^ 60 + 50) (2 ^ 60 + 50 + (2 ^ 61 + 200))
  = Ok false.
Proof. repeat split; vm_compute; reflexivity. Qed.

(** X23: whenever the half-step branch is taken although the starts are
    not exactly the float half step apart, any index returned is a
    RangeIndex that misses an element of the union, the larger of the two
    starts; and one is returned when no float is rounded. *)
Lemma half_step_slip_misses (A B : range) :
  step A <> 0 -> step B <> 0 -> half_step_slip A B = true ->
  (forall i, _union A B SortNone = Ok i ->
     exists r x,
       i = RangeIndex r /\
       (In x (tolist A) \/ In x (tolist B)) /\ ~ In x (tolist r)) /\
  (floats_exact A B = true ->
   exists r, _union A B SortNone = Ok (RangeIndex r)).
Proof.
  intros HA HB Hslip.
  pose proof (half_step_slip_general A B Hslip) as F.
  unfold half_step_slip, half_step_reached, floats_exact in *.
  unfold _union. rewrite F in *. cbn [negb andb] in Hslip.
  unfold union_fast_exit in F.
  apply orb_false_iff in F as [F F3]. apply orb_false_iff in F as [F1 F2].
  apply Z.eqb_neq in F1, F3.
  pose proof (len_nonneg A HA). pose proof (len_nonneg B HB).
  destruct (union_operands A B) as [[[ss ks] es] [[so ko] eo]] eqn:E.
  destruct (union_operands_spec A B HA HB ltac:(lia) ltac:(lia) F2
              ss ks es so ko eo E)
    as (Pks & Pko & Os & Oo & Ds & Do & VA & VB).
  apply andb_prop in Hslip as [Hreach Hne].
  apply andb_prop in Hreach as [Hreach Hev].
  apply andb_prop in Hreach as [Heq Ha].
  apply Z.eqb_eq in Heq. subst ko. apply Z.eqb_eq in Hev.
  apply negb_true_iff in Ha.
  rewrite Z.eqb_refl. rewrite py_mod_ok by lia. cbn [bind].
  rewrite Ha.
  destruct (half_step_test ss ks es so eo) as [[|]|] eqn:Et;
    try discriminate Hne.
  destruct (true_div_by_2 ks) as [h|] eqn:Eh; [|discriminate Hne].
  apply negb_true_iff in Hne. apply Z.eqb_neq in Hne.
  cbn [bind].
  destruct (even_half ks Pks Hev) as [Ph Ek].
  assert (Hh : 0 < h) by (apply (float_of_int_pos (ks / 2)); assumption).
  assert (T1 : Z.abs (ss - so) <= h).
  { unfold half_step_test in Et. rewrite Hev, Eh in Et.
    cbn [Z.eqb bind] in Et.
    destruct (Z.leb_spec (Z.abs (ss - so)) h); [assumption|discriminate]. }
  assert (Hdiff : ss <> so).
  { intros ->. unfold contiguous_test in Ha.
    rewrite Z.sub_diag, Z.mod_0_l in Ha by lia.
    replace (so - eo <=? ks) with true in Ha by (symmetry; apply Z.leb_le; lia).
    replace (so - es <=? ks) with true in Ha by (symmetry; apply Z.leb_le; lia).
    discriminate Ha. }
  split.
  - intros i Ei.
    destruct (float_of_int (Z.max es eo)) as [fe | err];
      cbn [bind] in Ei; [|discriminate Ei].
    destruct (float_add fe h) as [st | err];
      cbn [bind] in Ei; [|discriminate Ei].
    rewrite new_ints in Ei by lia. cbn [bind] in Ei. injection Ei as <-.
    eexists. exists (Z.max ss so). split; [reflexivity|]. split.
    + destruct (Z.max_spec ss so) as [[_ ->] | [_ ->]].
      * right. apply VB. split; [lia|]. rewrite Z.sub_diag.
        apply Z.divide_0_r.
      * left. apply VA. split; [lia|]. rewrite Z.sub_diag.
        apply Z.divide_0_r.
    + intros Hin. apply In_tolist_pos in Hin; [|cbn [step]; lia].
      cbn [start stop step] in Hin. destruct Hin as [_ Hd].
      pose proof (divide_gap h (Z.max ss so - Z.min ss so) Hh Hd
                    ltac:(lia)).
      lia.
  - intros Hex. apply Z.ltb_lt in Hex.
    destruct (half_step_floats_exact (Z.max es eo) ks Pks Hex)
      as (X1 & X2 & X3).
    rewrite X1 in Eh. injection Eh as <-.
    rewrite X2. cbn [bind]. rewrite X3. cbn [bind].
    rewrite new_ints by lia. cbn [bind]. eexists. reflexivity.
Qed.

(** Evens and odds interleave; a coarse range inside a fine one. *)
Example union_interleaved :
  _union (mkrange 0 10 2) (mkrange 1 11 2) SortNone
  = Ok (RangeIndex (mkrange 0 10 1)).
Proof. vm_compute. reflexivity. Qed.

Example union_multiple_step :
  _union (mkrange 0 20 5) (mkrange 0 20 10) SortNone
  = Ok (RangeIndex (mkrange 0 20 5)).
Proof. vm_compute. reflexivity. Qed.

(** ** Arithmetic with a scalar *)

(** The length is decided by which ordinals fall below it. *)
Lemma lt_len_iff (r : range) (i : Z) :
  step r <> 0 -> 0 <= i ->
  (i < len r <->
   (0 < step r /\ start r + i * step r < stop r) \/
   (step r < 0 /\ stop r < start r + i * step r)).
Proof.
  intros Hs Hi. destruct (Z.lt_ge_cases 0 (step r)) as [Hp | Hn].
  - rewrite lt_len_pos by assumption. split; [tauto | intros [[_ H] | [H _]]; [exact H | lia]].
  - rewrite lt_len_neg by lia. split; [intros H; right; split; [lia | exact H] | intros [[H _] | [_ H]]; [lia | exact H]].
Qed.

Lemma len_unique (n m : Z) :
  0 <= n -> 0 <= m -> (forall i, 0 <= i -> (i < n <-> i < m)) -> n = m.
Proof.
  intros Hn Hm H.
  destruct (Z.lt_trichotomy n m) as [Hlt | [Heq | Hgt]]; [|exact Heq|].
  - pose proof (proj2 (H n Hn) Hlt). lia.
  - pose proof (proj1 (H m Hm) Hgt). lia.
Qed.

Lemma len_shift (r : range) (k : Z) :
  step r <> 0 ->
  len (mkrange (start r + k) (stop r + k) (step r)) = len r.
Proof.
  intros Hs. apply len_unique.
  - apply len_nonneg. exact Hs.
  - apply len_nonneg. exact Hs.
  - intros i Hi. rewrite !lt_len_iff by assumption.
    cbn [start stop step]. lia.
Qed.

Lemma len_scale (r : range) (k : Z) :
  step r <> 0 -> k <> 0 ->
  len (mkrange (start r * k) (stop r * k) (step r * k)) = len r.
Proof.
  intros Hs Hk. apply len_unique.
  - apply len_nonneg. cbn [step]. nia.
  - apply len_nonneg. exact Hs.
  - intros i Hi. rewrite !lt_len_iff by (cbn [step]; try assumption; nia).
    cbn [start stop step].
    assert (E : forall a b, a * k < b * k <-> (0 < k /\ a < b) \/ (k < 0 /\ b < a)) by (intros; nia).
    replace (start r * k + i * (step r * k))
      with ((start r + i * step r) * k) by lia.
    replace (0 < step r * k) with (0 * k < step r * k) by (f_equal; lia).
    replace (step r * k < 0) with (step r * k < 0 * k) by (f_equal; lia).
    rewrite !E. lia.
Qed.

Lemma tolist_map (r r' : range) (f : Z -> Z) :
  len r' = len r ->
  (forall i, compute_item r' i = f (compute_item r i)) ->
  tolist r' = map f (tolist r).
Proof.
  intros Hl Hf. unfold tolist. rewrite map_map, Hl.
  apply map_ext. intros n. apply Hf.
Qed.

Lemma map_option_total {A B : Type} (f : A -> B) (l : list A) :
  map_option (fun x => Some (f x)) l = Some (map f l).
Proof.
  induction l as [|x l IH]; cbn [map_option map]; [reflexivity|].
  rewrite IH. reflexivity.
Qed.

Lemma add_spec (A : range) (k : Z) :
  step A <> 0 ->
  __add__ A k = Ok (RangeIndex (mkrange (start A + k) (stop A + k) (step A)))
  /\ tolist (mkrange (start A + k) (stop A + k) (step A))
     = map (fun x => x + k) (tolist A).
Proof.
  intros Hs. split.
  - unfold __add__, _evaluate_numeric_binop, new_of_numbers.
    cbn [apply_op bind ensure_python_int].
    rewrite new_ints by exact Hs. reflexivity.
  - apply tolist_map; [apply len_shift; exact Hs|].
    intros i. unfold compute_item; cbn [start step]. lia.
Qed.

Lemma sub_spec (A : range) (k : Z) :
  step A <> 0 ->
  __sub__ A k = Ok (RangeIndex (mkrange (start A - k) (stop A - k) (step A)))
  /\ tolist (mkrange (start A - k) (stop A - k) (step A))
     = map (fun x => x - k) (tolist A).
Proof.
  intros Hs. split.
  - unfold __sub__, _evaluate_numeric_binop, new_of_numbers.
    cbn [apply_op bind ensure_python_int].
    rewrite new_ints by exact Hs. reflexivity.
  - apply tolist_map.
    + pose proof (len_shift A (- k) Hs) as H.
      replace (start A + - k) with (start A - k) in H by lia.
      replace (stop A + - k) with (stop A - k) in H by lia. exact H.
    + intros i. unfold compute_item; cbn [start step]. lia.
Qed.

Lemma mul_spec (A : range) (k : Z) :
  step A <> 0 ->
  (k <> 0 ->
   __mul__ A k
   = Ok (RangeIndex (mkrange (start A * k) (stop A * k) (step A * k)))
   /\ tolist (mkrange (start A * k) (stop A * k) (step A * k))
      = map (fun x => x * k) (tolist A))
  /\ (k = 0 -> __mul__ A k = Ok (Int64Binop Mul (tolist A) (PyInt 0))).
Proof.
  intros Hs. split.
  - intros Hk. split.
    + unfold __mul__, _evaluate_numeric_binop, new_of_numbers.
      cbn [apply_op bind ensure_python_int is_integer truthy negb orb].
      assert (Hst : step A * k <> 0) by nia.
      destruct (Z.eqb_spec (step A * k) 0) as [|_]; [contradiction|].
      cbn [negb bind ensure_python_int].
      rewrite new_ints by exact Hst. reflexivity.
    + apply tolist_map; [apply len_scale; assumption|].
      intros i. unfold compute_item; cbn [start step]. lia.
  - intros ->. unfold __mul__, _evaluate_numeric_binop.
    cbn [apply_op bind is_integer truthy negb orb].
    rewrite Z.mul_0_r. reflexivity.
Qed.

(** C3: for every progression [A] and integer [k], the elements of
    [A + k], [A - k] and [A * k] are those of [A] with the operator applied
    to each, in order; the product with a scalar other than zero scales
    start, stop and step. *)
Theorem C3_scalar_arithmetic (A : range) (k : Z) :
  step A <> 0 ->
  (exists i, __add__ A k = Ok i /\
             int_values i = Some (map (fun x => x + k) (tolist A))) /\
  (exists i, __sub__ A k = Ok i /\
             int_values i = Some (map (fun x => x - k) (tolist A))) /\
  (exists i, __mul__ A k = Ok i /\
             int_values i = Some (map (fun x => x * k) (tolist A))) /\
  (k <> 0 ->
   __mul__ A k
   = Ok (RangeIndex (mkrange (start A * k) (stop A * k) (step A * k)))).
Proof.
  intros Hs.
  destruct (add_spec A k Hs) as [Ea La].
  destruct (sub_spec A k Hs) as [Es Ls].
  destruct (mul_spec A k Hs) as [Mn Mz].
  split; [|split; [|split]].
  - eexists. split; [exact Ea|]. cbn [int_values]. rewrite La. reflexivity.
  - eexists. split; [exact Es|]. cbn [int_values]. rewrite Ls. reflexivity.
  - destruct (Z.eq_dec k 0) as [Hz | Hnz].
    + eexists. split; [apply Mz; exact Hz|]. subst k.
      cbn [int_values int_op]. apply map_option_total.
    + destruct (Mn Hnz) as [Em Lm].
      eexists. split; [exact Em|]. cbn [int_values]. rewrite Lm. reflexivity.
  - intros Hnz. apply Mn. exact Hnz.
Qed.

Lemma C3_scalar_arithmetic_witness :
  (exists i, __add__ (mkrange 10 0 (-2)) 3 = Ok i /\
             int_values i
             = Some (map (fun x => x + 3) (tolist (mkrange 10 0 (-2))))) /\
  (exists i, __sub__ (mkrange 10 0 (-2)) 3 = Ok i /\
             int_values i
             = Some (map (fun x => x - 3) (tolist (mkrange 10 0 (-2))))) /\
  (exists i, __mul__ (mkrange 10 0 (-2)) 3 = Ok i /\
             int_values i
             = Some (map (fun x => x * 3) (tolist (mkrange 10 0 (-2))))) /\
  (3 <> 0 ->
   __mul__ (mkrange 10 0 (-2)) 3
   = Ok (RangeIndex (mkrange (10 * 3) (0 * 3) (-2 * 3)))).
Proof.
  apply (C3_scalar_arithmetic (mkrange 10 0 (-2)) 3). cbn [step]. lia.
Defined.

(** The reflected subtraction keeps the step, although [k - x] runs the
    other way: [5 - [0, 1, 2]] comes out empty. *)
Example rsub_keeps_step :
  __rsub__ (mkrange 0 3 1) 5 = Ok (RangeIndex (mkrange 5 2 1)) /\
  tolist (mkrange 5 2 1) = [] /\
  map (fun x => 5 - x) (tolist (mkrange 0 3 1)) = [5; 4; 3].
Proof. repeat split; reflexivity. Qed.



Lemma tolist_single (r : range) : len r = 1 -> tolist r = [start r].
Proof.
  intros H. unfold tolist. rewrite H. change (Z.to_nat 1) with 1%nat.
  cbn [seq map]. unfold compute_item. change (Z.of_nat 0) with 0.
  f_equal. lia.
Qed.

Lemma floordiv_exact (A : range) (k : Z) :
  step A <> 0 -> k <> 0 ->
  (k | start A) -> (k | step A) ->
  __floordiv__ A (PyInt k)
  = Ok (RangeIndex (mkrange (start A / k)
                            (start A / k + len A * (step A / k))
                            (step A / k)))
  /\ tolist (mkrange (start A / k) (start A / k + len A * (step A / k))
                     (step A / k))
     = map (fun x => x / k) (tolist A).
Proof.
  intros Hs Hk [a Ha] [b Hb].
  assert (Ea : start A / k = a) by (rewrite Ha; apply Z.div_mul; exact Hk).
  assert (Eb : step A / k = b) by (rewrite Hb; apply Z.div_mul; exact Hk).
  assert (Hb0 : b <> 0) by (intros ->; lia).
  split.
  - unfold __floordiv__.
    destruct (Z.eqb_spec k 0) as [|_]; [contradiction|]. cbn [negb].
    replace (start A mod k =? 0) with true
      by (symmetry; apply Z.eqb_eq; rewrite Ha; apply Z.mod_mul; exact Hk).
    replace (step A mod k =? 0) with true
      by (symmetry; apply Z.eqb_eq; rewrite Hb; apply Z.mod_mul; exact Hk).
    rewrite orb_true_r.
    rewrite simple_new_ints by (rewrite Eb; exact Hb0). reflexivity.
  - rewrite Ea, Eb. apply tolist_map.
    + apply len_exact; [exact Hb0 | apply len_nonneg; exact Hs].
    + intros i. unfold compute_item; cbn [start step].
      rewrite Ha, Hb.
      replace (a * k + i * (b * k)) with ((a + i * b) * k) by lia.
      rewrite Z.div_mul by exact Hk. reflexivity.
Qed.

Lemma floordiv_empty (A : range) (k : Z) :
  k <> 0 -> len A = 0 ->
  exists r, __floordiv__ A (PyInt k) = Ok (RangeIndex r) /\ tolist r = [].
Proof.
  intros Hk Hl. unfold __floordiv__.
  destruct (Z.eqb_spec k 0) as [|_]; [contradiction|]. cbn [negb].
  rewrite Hl. cbn [Z.eqb orb]. unfold _simple_new, set_range.
  eexists. split; [reflexivity|].
  apply tolist_empty. rewrite or_default_stop.
  replace (start A / k + 0 * (step A / k))
    with (start A / k + 0 * or_default (Some (step A / k)) 1) by lia.
  apply len_exact; [|lia].
  unfold or_default. destruct (Z.eqb_spec (step A / k) 0); lia.
Qed.

Lemma floordiv_single (A : range) (k : Z) :
  step A <> 0 -> k <> 0 -> len A = 1 ->
  exists r, __floordiv__ A (PyInt k) = Ok (RangeIndex r) /\
            tolist r = map (fun x => x / k) (tolist A).
Proof.
  intros Hs Hk Hl.
  destruct (Z.eqb_spec (start A mod k) 0) as [H1 | H1];
    [destruct (Z.eqb_spec (step A mod k) 0) as [H2 | H2]|].
  - apply Z.mod_divide in H1, H2; try exact Hk.
    destruct (floordiv_exact A k Hs Hk H1 H2) as [E L].
    eexists. split; [exact E | exact L].
  - unfold __floordiv__.
    destruct (Z.eqb_spec k 0) as [|_]; [contradiction|]. cbn [negb].
    rewrite Hl.
    replace (start A mod k =? 0) with true by (symmetry; apply Z.eqb_eq; exact H1).
    replace (step A mod k =? 0) with false by (symmetry; apply Z.eqb_neq; exact H2).
    cbn [Z.eqb orb andb bind]. rewrite simple_new_ints by lia. cbn [bind].
    eexists. split; [reflexivity|].
    rewrite (tolist_single A Hl). apply tolist_single.
    pose proof (len_exact (start A / k) 1 1 ltac:(lia) ltac:(lia)) as H.
    replace (start A / k + 1 * 1) with (start A / k + 1) in H by lia. exact H.
  - unfold __floordiv__.
    destruct (Z.eqb_spec k 0) as [|_]; [contradiction|]. cbn [negb].
    rewrite Hl.
    replace (start A mod k =? 0) with false by (symmetry; apply Z.eqb_neq; exact H1).
    cbn [Z.eqb orb andb bind]. rewrite simple_new_ints by lia. cbn [bind].
    eexists. split; [reflexivity|].
    rewrite (tolist_single A Hl). apply tolist_single.
    pose proof (len_exact (start A / k) 1 1 ltac:(lia) ltac:(lia)) as H.
    replace (start A / k + 1 * 1) with (start A / k + 1) in H by lia. exact H.
Qed.

(** C4 (amended): floor division by a scalar keeps the range form exactly
    when the scalar is an integer other than zero and the range is empty,
    or has one element, or has both start and step divisible by the
    scalar; the elements of the range returned are then the floor
    quotients of the elements, in order.  In every other case the
    operation is left to the dense index. *)
Theorem C4_floordiv (A : range) (other : pynum) :
  step A <> 0 ->
  (floordiv_preserved A other = true ->
   exists r k,
     other = PyInt k /\ k <> 0 /\
     __floordiv__ A other = Ok (RangeIndex r) /\
     tolist r = map (fun x => x / k) (tolist A)) /\
  (floordiv_preserved A other = false ->
   __floordiv__ A other = Ok (Int64Binop FloorDiv (tolist A) other)).
Proof.
  intros Hs. destruct other as [k | n d]; cbn [floordiv_preserved].
  2:{ split; [discriminate | reflexivity]. }
  destruct (Z.eqb_spec k 0) as [-> | Hk]; cbn [negb andb].
  { split; [discriminate | reflexivity]. }
  split.
  - intros H. apply orb_prop in H as [H | H]; [apply orb_prop in H as [H | H]|].
    + apply Z.eqb_eq in H.
      destruct (floordiv_empty A k Hk H) as (r & E & L).
      exists r, k. rewrite (tolist_empty A H).
      split; [reflexivity|]. split; [exact Hk|]. split; [exact E | exact L].
    + apply Z.eqb_eq in H.
      destruct (floordiv_single A k Hs Hk H) as (r & E & L).
      exists r, k. split; [reflexivity|]. split; [exact Hk|].
      split; [exact E | exact L].
    + apply andb_prop in H as [H1 H2]. apply Z.eqb_eq in H1, H2.
      apply Z.mod_divide in H1, H2; try exact Hk.
      destruct (floordiv_exact A k Hs Hk H1 H2) as [E L].
      eexists. exists k. split; [reflexivity|]. split; [exact Hk|].
      split; [exact E | exact L].
  - intros H. apply orb_false_iff in H as [H H3].
    apply orb_false_iff in H as [H1 H2].
    unfold __floordiv__. rewrite H1, H2, H3.
    destruct (Z.eqb_spec k 0) as [|_]; [contradiction|]. reflexivity.
Qed.

Lemma C4_floordiv_witness :
  (floordiv_preserved (mkrange 0 10 2) (PyInt 2) = true ->
   exists r k,
     PyInt 2 = PyInt k /\ k <> 0 /\
     __floordiv__ (mkrange 0 10 2) (PyInt 2) = Ok (RangeIndex r) /\
     tolist r = map (fun x => x / k) (tolist (mkrange 0 10 2))) /\
  (floordiv_preserved (mkrange 0 10 2) (PyInt 2) = false ->
   __floordiv__ (mkrange 0 10 2) (PyInt 2)
   = Ok (Int64Binop FloorDiv (tolist (mkrange 0 10 2)) (PyInt 2))).
Proof.
  apply (C4_floordiv (mkrange 0 10 2) (PyInt 2)). cbn [step]. lia.
Defined.

(** C4 as stated fails: a range of one element keeps the range form
    although the scalar does not divide its start. *)
Lemma C4_floordiv_counterexample :
  len (mkrange 1 2 1) = 1 /\
  1 mod 2 <> 0 /\
  __floordiv__ (mkrange 1 2 1) (PyInt 2) = Ok (RangeIndex (mkrange 0 1 1)).
Proof.
  split; [reflexivity|]. split; [discriminate | reflexivity].
Qed.

(** A step not divisible by the scalar sends floor division to the dense
    index. *)
Example floordiv_fallback :
  __floordiv__ (mkrange 0 10 2) (PyInt 3)
  = Ok (Int64Binop FloorDiv [0; 2; 4; 6; 8] (PyInt 3)) /\
  int_values (Int64Binop FloorDiv [0; 2; 4; 6; 8] (PyInt 3))
  = Some [0; 0; 1; 2; 2].
Proof. split; reflexivity. Qed.


(** ** True division *)

(** C5 (amended): true division of a progression by an integer scalar
    never keeps the range form.  The quotient of the step is a float, so
    the test on the step fails (or the division raises, for zero); start
    and stop are not divided, and the operation is left to the dense
    index on the materialised elements. *)
Theorem C5_truediv_dense (A : range) (k : Z) :
  __truediv__ A k = Ok (Int64Binop TrueDiv (tolist A) (PyInt k)) /\
  (k <> 0 ->
   exists q, apply_op TrueDiv (step A) k = Ok q /\ is_integer q = false).
Proof.
  split.
  - unfold __truediv__, _evaluate_numeric_binop. cbn [apply_op].
    destruct (k =? 0); reflexivity.
  - intros Hk. cbn [apply_op].
    destruct (Z.eqb_spec k 0) as [|_]; [contradiction|].
    eexists. split; reflexivity.
Qed.

(** C5 as stated fails: dividing [0, 2, 4, 6, 8] by 2, where start, stop
    and step all divide evenly, gives neither a range nor a range cast to
    floats but the dense fallback. *)
Lemma C5_truediv_counterexample :
  __truediv__ (mkrange 0 10 2) 2
  = Ok (Int64Binop TrueDiv [0; 2; 4; 6; 8] (PyInt 2)) /\
  (forall r, __truediv__ (mkrange 0 10 2) 2 <> Ok (RangeIndex r)) /\
  (forall r, __truediv__ (mkrange 0 10 2) 2 <> Ok (Float64Of r)).
Proof.
  split; [reflexivity|]. split; intros r H; discriminate H.
Qed.

(** ** Construction *)

(** C6: the constructor raises TypeError exactly when start, stop and
    step are all absent, raises ValueError exactly when the step is given
    as zero, raises nothing else, and reads a single value as the stop of
    a range starting at 0 with step 1. *)
Theorem C6_constructor (start stop step : option Z) :
  (__new__ start stop step = Raise TypeError <->
   start = None /\ stop = None /\ step = None) /\
  (__new__ start stop step = Raise ValueError <-> step = Some 0) /\
  (forall e, __new__ start stop step = Raise e ->
             e = TypeError \/ e = ValueError) /\
  (forall v, __new__ (Some v) None None = Ok (mkrange 0 v 1)).
Proof.
  split; [|split; [|split]].
  - unfold __new__.
    destruct start as [s|], stop as [e|], step as [st|]; cbn [_all_none];
      try destruct (Z.eqb_spec st 0);
      split; intros H; try discriminate H; try reflexivity;
      try (destruct H as (H1 & H2 & H3); discriminate); auto.
  - unfold __new__.
    destruct start as [s|], stop as [e|], step as [st|]; cbn [_all_none];
      try destruct (Z.eqb_spec st 0);
      split; intros H; try discriminate H; try reflexivity;
      try (subst; reflexivity); try (injection H as H; contradiction).
  - intros e. unfold __new__.
    destruct start as [s|], stop as [e'|], step as [st|]; cbn [_all_none];
      try destruct (Z.eqb_spec st 0);
      intros H; try discriminate H; injection H as <-; auto.
  - intros v. unfold __new__, set_range. cbn [_all_none Z.eqb].
    rewrite or_default_stop. reflexivity.
Qed.

(** ** Positional access *)

(** C7: for a progression of length [n], the element at [i] is
    [start + i * step] for [0 <= i < n] and [start + (n + i) * step] for
    [-n <= i < 0]; IndexError is raised exactly when [i] lies outside
    [-n, n). *)
Theorem C7_getitem (A : range) (i : Z) :
  step A <> 0 ->
  (0 <= i < len A -> getitem_scalar A i = Ok (start A + i * step A)) /\
  (- len A <= i < 0 ->
   getitem_scalar A i = Ok (start A + (len A + i) * step A)) /\
  (getitem_scalar A i = Raise IndexError <-> i < - len A \/ len A <= i).
Proof.
  intros Hs. pose proof (len_nonneg A Hs) as Hn.
  unfold getitem_scalar, range_item, compute_item.
  destruct (Z.ltb_spec i 0) as [Hneg | Hpos].
  - destruct (Z.ltb_spec (i + len A) 0) as [H1 | H1]; cbn [orb].
    + split; [lia|]. split; [lia|]. split; [lia | reflexivity].
    + destruct (Z.leb_spec (len A) (i + len A)) as [H2 | H2]; [lia|].
      split; [lia|]. split.
      * intros _. f_equal. lia.
      * split; [discriminate | lia].
  - destruct (Z.ltb_spec i 0) as [H1 | H1]; [lia|]. cbn [orb].
    destruct (Z.leb_spec (len A) i) as [H2 | H2].
    + split; [lia|]. split; [lia|]. split; [lia | reflexivity].
    + split; [reflexivity|]. split; [lia|].
      split; [discriminate | lia].
Qed.

Lemma C7_getitem_witness :
  (0 <= -1 < len (mkrange 10 0 (-2)) ->
   getitem_scalar (mkrange 10 0 (-2)) (-1) = Ok (10 + -1 * -2)) /\
  (- len (mkrange 10 0 (-2)) <= -1 < 0 ->
   getitem_scalar (mkrange 10 0 (-2)) (-1)
   = Ok (10 + (len (mkrange 10 0 (-2)) + -1) * -2)) /\
  (getitem_scalar (mkrange 10 0 (-2)) (-1) = Raise IndexError <->
   -1 < - len (mkrange 10 0 (-2)) \/ len (mkrange 10 0 (-2)) <= -1).
Proof.
  apply (C7_getitem (mkrange 10 0 (-2)) (-1)). cbn [step]. lia.
Defined.

(** The last element of [10, 8, 6, 4, 2]. *)
Example getitem_last : getitem_scalar (mkrange 10 0 (-2)) (-1) = Ok 2.
Proof. reflexivity. Qed.


(** ** Equality *)

Lemma canonical_eq_iff (A B : range) :
  step A <> 0 -> step B <> 0 ->
  (canonical A = canonical B <->
   start A = start B /\ step A = step B /\ len A = len B).
Proof.
  intros HA HB. unfold canonical. split.
  - intros H. injection H as H1 H2 H3.
    split; [exact H1|]. split; [exact H3|].
    rewrite H1, H3 in H2.
    assert (len A * step B = len B * step B) by lia.
    apply Z.mul_cancel_r in H; assumption.
  - intros (-> & -> & ->). reflexivity.
Qed.

(** C8: two progressions are equal exactly when they denote the same
    elements in the same order.  With at most one element the stop and
    step play no part; with two or more elements on either side equality
    holds exactly when the triples agree once each stop is rewritten as
    [start + length * step]. *)
Theorem C8_equals (A B : range) :
  step A <> 0 -> step B <> 0 ->
  (equals A B = true <-> tolist A = tolist B) /\
  (len A <= 1 ->
   (equals A B = true <->
    len B = len A /\ (len A = 1 -> start B = start A))) /\
  (2 <= len A \/ 2 <= len B ->
   (equals A B = true <-> canonical A = canonical B)).
Proof.
  intros HA HB.
  pose proof (len_nonneg A HA) as LA. pose proof (len_nonneg B HB) as LB.
  split; [apply range_eqb_tolist; assumption|]. split.
  - intros H1. unfold equals, range_eqb.
    destruct (Z.eqb_spec (len A) (len B)) as [El | El]; cbn [negb].
    2:{ split; [discriminate | intros [E _]; lia]. }
    destruct (Z.eqb_spec (len A) 0) as [E0 | E0].
    { split; [intros _; split; lia | reflexivity]. }
    destruct (Z.eqb_spec (start A) (start B)) as [Es | Es]; cbn [negb].
    2:{ split; [discriminate | intros [_ E]; lia]. }
    replace (len A =? 1) with true by (symmetry; apply Z.eqb_eq; lia).
    split; [intros _; split; lia | reflexivity].
  - intros H2. rewrite canonical_eq_iff by assumption.
    unfold equals, range_eqb.
    destruct (Z.eqb_spec (len A) (len B)) as [El | El]; cbn [negb].
    2:{ split; [discriminate | intros (_ & _ & E); contradiction]. }
    destruct (Z.eqb_spec (len A) 0) as [E0 | E0]; [lia|].
    destruct (Z.eqb_spec (start A) (start B)) as [Es | Es]; cbn [negb].
    2:{ split; [discriminate | intros (E & _); contradiction]. }
    destruct (Z.eqb_spec (len A) 1) as [E1 | E1]; [lia|].
    rewrite Z.eqb_eq. tauto.
Qed.

Lemma C8_equals_witness :
  (equals (mkrange 0 5 2) (mkrange 0 6 2) = true <->
   tolist (mkrange 0 5 2) = tolist (mkrange 0 6 2)) /\
  (len (mkrange 0 5 2) <= 1 ->
   (equals (mkrange 0 5 2) (mkrange 0 6 2) = true <->
    len (mkrange 0 6 2) = len (mkrange 0 5 2) /\
    (len (mkrange 0 5 2) = 1 -> 0 = 0))) /\
  (2 <= len (mkrange 0 5 2) \/ 2 <= len (mkrange 0 6 2) ->
   (equals (mkrange 0 5 2) (mkrange 0 6 2) = true <->
    canonical (mkrange 0 5 2) = canonical (mkrange 0 6 2))).
Proof.
  apply (C8_equals (mkrange 0 5 2) (mkrange 0 6 2)); cbn [step]; lia.
Defined.

(** [0, 2, 4] written with stop 5 and with stop 6, and a single element
    written with different stops and steps. *)
Example equals_stop_not_unique :
  equals (mkrange 0 5 2) (mkrange 0 6 2) = true /\
  equals (mkrange 0 1 1) (mkrange 0 5 7) = true.
Proof. split; reflexivity. Qed.

(** ** any *)

Lemma any_true_iff (A : range) :
  any A = true <-> exists x, In x (tolist A) /\ x <> 0.
Proof.
  unfold any, py_any. rewrite existsb_exists.
  split; intros (x & Hin & Hx); exists x; (split; [exact Hin|]).
  - apply negb_true_iff in Hx. apply Z.eqb_neq. exact Hx.
  - apply negb_true_iff. apply Z.eqb_neq. exact Hx.
Qed.

(** C9: [any] is true exactly when the progression is not empty and is
    not the single element 0; it is false exactly for the empty progression
    and for the progression whose sole element is 0. *)
Theorem C9_any (A : range) :
  step A <> 0 ->
  (any A = true <-> 0 < len A /\ ~ (len A = 1 /\ start A = 0)) /\
  (any A = false <-> tolist A = [] \/ tolist A = [0]).
Proof.
  intros Hs. pose proof (len_nonneg A Hs) as Hn.
  assert (Htrue : any A = true <-> 0 < len A /\ ~ (len A = 1 /\ start A = 0)).
  { rewrite any_true_iff. split.
    - intros (x & Hin & Hx). apply In_tolist in Hin; [|exact Hs].
      destruct Hin as (i & Hi & ->). split; [lia|].
      intros [H1 H0]. unfold compute_item in Hx. nia.
    - intros [Hpos Hnot].
      destruct (Z.eq_dec (start A) 0) as [E0 | E0].
      + exists (compute_item A 1). split.
        * apply In_tolist; [exact Hs|]. exists 1. split; [lia | reflexivity].
        * unfold compute_item. lia.
      + exists (compute_item A 0). split.
        * apply In_tolist; [exact Hs|]. exists 0. split; [lia | reflexivity].
        * unfold compute_item. lia. }
  split; [exact Htrue|].
  rewrite <- not_true_iff_false, Htrue. split.
  - intros H.
    destruct (Z.eq_dec (len A) 0) as [E0 | E0];
      [left; apply tolist_empty; exact E0|].
    right. assert (E1 : len A = 1 /\ start A = 0) by lia.
    destruct E1 as [E1 Es]. rewrite (tolist_single A E1), Es. reflexivity.
  - intros [H | H] [Hpos Hnot].
    + pose proof (f_equal (@length Z) H) as Hl.
      rewrite length_tolist in Hl. cbn [length] in Hl. lia.
    + pose proof (f_equal (@length Z) H) as Hl.
      rewrite length_tolist in Hl. cbn [length] in Hl.
      assert (E1 : len A = 1) by lia.
      rewrite (tolist_single A E1) in H. injection H as H.
      apply Hnot. split; assumption.
Qed.

Lemma C9_any_witness :
  (any (mkrange 0 1 1) = true <->
   0 < len (mkrange 0 1 1) /\ ~ (len (mkrange 0 1 1) = 1 /\ 0 = 0)) /\
  (any (mkrange 0 1 1) = false <->
   tolist (mkrange 0 1 1) = [] \/ tolist (mkrange 0 1 1) = [0]).
Proof.
  apply (C9_any (mkrange 0 1 1)). cbn [step]. lia.
Defined.



(** ** The step is never zero *)

Lemma or_default_step_nonzero (x : option Z) : or_default x 1 <> 0.
Proof.
  unfold or_default. destruct x as [v|]; [|lia].
  destruct (Z.eqb_spec v 0); lia.
Qed.

Lemma new_step_nonzero (s e st : option Z) (r : range) :
  __new__ s e st = Ok r -> step r <> 0.
Proof.
  unfold __new__. destruct (_all_none s e st); [discriminate|].
  destruct e as [e|];
    (destruct (match st with Some v => v | None => 1 end =? 0);
     [discriminate|]);
    intros H; injection H as <-; apply or_default_step_nonzero.
Qed.

Lemma simple_new_step_nonzero (s e st : option Z) (r : range) :
  _simple_new s e st = Ok r -> step r <> 0.
Proof.
  unfold _simple_new.
  destruct s as [s|].
  - intros H; injection H as <-. apply or_default_step_nonzero.
  - destruct e as [e|].
    + apply new_step_nonzero.
    + intros H; injection H as <-. apply or_default_step_nonzero.
Qed.

Lemma getitem_slice_step_nonzero (a : range) (key : slice) (r : range) :
  getitem_slice a key = Ok r -> step r <> 0.
Proof.
  unfold getitem_slice. destruct (range_slice a key) as [d|]; cbn [bind];
    [|discriminate].
  apply new_step_nonzero.
Qed.

Lemma union_step_nonzero (a b : range) (sort : sort_kw) (r : range) :
  step a <> 0 -> step b <> 0 ->
  _union a b sort = Ok (RangeIndex r) -> step r <> 0.
Proof.
  intros Ha Hb. destruct (union_fast_exit a b) eqn:F.
  - destruct (union_fast a b sort Ha Hb F) as (r' & E & Hr & _).
    rewrite E. intros H; injection H as <-. destruct Hr as [-> | ->]; assumption.
  - unfold _union. rewrite F. destruct sort; [|discriminate].
    destruct (union_operands a b) as [[[ss ks] es] [[so ko] eo]].
    repeat match goal with
           | |- context [py_mod ?x ?y] =>
               unfold py_mod; destruct (y =? 0); cbn [bind]
           | |- context [half_step_test ?a1 ?a2 ?a3 ?a4 ?a5] =>
               destruct (half_step_test a1 a2 a3 a4 a5) as [[|]|];
               cbn [bind]
           | |- context [true_div_by_2 ?x] =>
               destruct (true_div_by_2 x); cbn [bind]
           | |- context [float_of_int ?x] =>
               destruct (float_of_int x); cbn [bind]
           | |- context [float_add ?x ?y] =>
               destruct (float_add x y); cbn [bind]
           | |- context [if ?c then _ else _] => destruct c; cbn [bind]
           | |- context [__new__ ?s ?e ?st] =>
               let E := fresh "E" in
               destruct (__new__ s e st) eqn:E; cbn [bind];
               [apply new_step_nonzero in E|]
           end;
      intros EE; try discriminate EE; injection EE as <-; assumption.
Qed.

Lemma new_of_numbers_step_nonzero (x y z : pynum) (r : range) :
  new_of_numbers x y z = Ok r -> step r <> 0.
Proof.
  unfold new_of_numbers.
  destruct (ensure_python_int x); cbn [bind]; [|discriminate].
  destruct (ensure_python_int y); cbn [bind]; [|discriminate].
  destruct (ensure_python_int z); cbn [bind]; [|discriminate].
  apply new_step_nonzero.
Qed.

Lemma binop_step_nonzero (op : binop) (step_op : option binop)
    (a : range) (k : Z) (r : range) :
  _evaluate_numeric_binop op step_op a k = Ok (RangeIndex r) -> step r <> 0.
Proof.
  unfold _evaluate_numeric_binop.
  destruct (match step_op with
            | Some sop =>
                rstep <- apply_op sop (step a) k ;;
                if negb (is_integer rstep) || negb (truthy rstep)
                then Raise ValueError
                else Ok rstep
            | None => Ok (PyInt (step a))
            end) as [rstep | e]; cbn [bind].
  2:{ destruct e; discriminate. }
  destruct (apply_op op (start a) k) as [rstart | e]; cbn [bind].
  2:{ destruct e; discriminate. }
  destruct (apply_op op (stop a) k) as [rstop | e]; cbn [bind].
  2:{ destruct e; discriminate. }
  destruct (new_of_numbers rstart rstop rstep) as [res | e] eqn:E;
    cbn [bind].
  2:{ destruct e; discriminate. }
  apply new_of_numbers_step_nonzero in E.
  destruct (negb (forallb is_integer [rstart; rstop; rstep]));
    intros H; [discriminate H|]. injection H as <-. exact E.
Qed.

Lemma floordiv_step_nonzero (a : range) (other : pynum) (r : range) :
  __floordiv__ a other = Ok (RangeIndex r) -> step r <> 0.
Proof.
  unfold __floordiv__. destruct other as [k | n d]; [|discriminate].
  repeat match goal with
         | |- context [if ?c then _ else _] => destruct c; cbn [bind]
         | |- context [_simple_new ?s ?e ?st] =>
             let E := fresh "E" in
             destruct (_simple_new s e st) eqn:E; cbn [bind];
             [apply simple_new_step_nonzero in E|]
         end;
    intros EE; try discriminate EE; injection EE as <-; assumption.
Qed.

Lemma reachable_step_nonzero (r : range) : reachable r -> step r <> 0.
Proof.
  induction 1 as [s e st r E | s e st r E | a r _ _ E | a r _ _ E
                 | a r _ _ E | a key r _ _ E
                 | a b sort r _ IHa _ IHb E | a b sort r _ IHa _ IHb E
                 | op step_op a k r _ _ E | a other r _ _ E].
  - exact (new_step_nonzero _ _ _ _ E).
  - exact (simple_new_step_nonzero _ _ _ _ E).
  - exact (simple_new_step_nonzero _ _ _ _ E).
  - exact (new_step_nonzero _ _ _ _ E).
  - exact (simple_new_step_nonzero _ _ _ _ E).
  - exact (getitem_slice_step_nonzero _ _ _ E).
  - destruct (intersection_spec a b sort IHa IHb) as (r' & E' & Hr & _).
    rewrite E in E'. injection E' as ->. exact Hr.
  - exact (union_step_nonzero a b sort r IHa IHb E).
  - exact (binop_step_nonzero _ _ _ _ _ E).
  - exact (floordiv_step_nonzero _ _ _ E).
Qed.

(** A step other than zero keeps the elements distinct. *)
Lemma NoDup_tolist (r : range) : step r <> 0 -> NoDup (tolist r).
Proof.
  intros Hs. unfold tolist. apply Injective_map_NoDup; [|apply seq_NoDup].
  intros i j H. unfold compute_item in H. nia.
Qed.

(** C10: every index instance, whichever constructor or operation built
    it, has a step other than zero, so its elements are pairwise distinct
    and [is_unique] and [has_duplicates] answer truthfully; the internal
    constructor given an integer start replaces a step of zero, or an
    absent one, by 1. *)
Theorem C10_step_nonzero (r : range) :
  reachable r ->
  step r <> 0 /\ NoDup (tolist r) /\
  is_unique r = true /\ has_duplicates r = false /\
  (forall s e, _simple_new (Some s) e (Some 0)
               = Ok (mkrange s (or_default e 0) 1)) /\
  (forall s e, _simple_new (Some s) e None
               = Ok (mkrange s (or_default e 0) 1)).
Proof.
  intros H. pose proof (reachable_step_nonzero r H) as Hs.
  split; [exact Hs|]. split; [apply NoDup_tolist; exact Hs|].
  split; [reflexivity|]. split; [reflexivity|].
  split; intros s e; destruct e; reflexivity.
Qed.

Lemma C10_step_nonzero_witness :
  step (mkrange 0 5 1) <> 0 /\ NoDup (tolist (mkrange 0 5 1)) /\
  is_unique (mkrange 0 5 1) = true /\
  has_duplicates (mkrange 0 5 1) = false /\
  (forall s e, _simple_new (Some s) e (Some 0)
               = Ok (mkrange s (or_default e 0) 1)) /\
  (forall s e, _simple_new (Some s) e None
               = Ok (mkrange s (or_default e 0) 1)).
Proof.
  apply (C10_step_nonzero (mkrange 0 5 1)).
  apply (reach_simple_new (Some 0) (Some 5) (Some 0)). reflexivity.
Defined.


(** * Further properties of the accessors *)

(** ** Membership and lookup *)

(** X1: [key in index] holds exactly when [key] is one of the
    materialised elements. *)
Theorem contains_iff_element (self : range) (key : Z) :
  step self <> 0 ->
  (__contains__ self key = true <-> In key (tolist self)).
Proof.
  intros Hs. unfold __contains__. symmetry.
  apply In_tolist_contains. exact Hs.
Qed.

Lemma contains_iff_element_witness :
  __contains__ (mkrange 10 0 (-2)) 4 = true <->
  In 4 (tolist (mkrange 10 0 (-2))).
Proof.
  apply (contains_iff_element (mkrange 10 0 (-2)) 4). cbn [step]. lia.
Defined.

Lemma contains_position (self : range) (key : Z) :
  step self <> 0 -> range_contains self key = true ->
  0 <= (key - start self) / step self < len self /\
  key = start self + (key - start self) / step self * step self.
Proof.
  intros Hs Hc.
  apply In_tolist_contains in Hc; [|exact Hs].
  apply In_tolist in Hc; [|exact Hs].
  destruct Hc as (i & Hi & ->). unfold compute_item.
  replace (start self + i * step self - start self) with (i * step self)
    by lia.
  rewrite Z.div_mul by exact Hs. split; [exact Hi | reflexivity].
Qed.

Lemma getitem_scalar_inside (self : range) (i : Z) :
  0 <= i < len self -> getitem_scalar self i = Ok (compute_item self i).
Proof.
  intros Hi. unfold getitem_scalar, range_item.
  destruct (Z.ltb_spec i 0) as [|_]; [lia|].
  destruct (Z.ltb_spec i 0) as [|_]; [lia|]. cbn [orb].
  destruct (Z.leb_spec (len self) i); [lia | reflexivity].
Qed.

(** X2: [get_loc] answers with a position inside the index at which the
    key is found; it raises KeyError exactly when the key is not an
    element, and raises nothing else. *)
Theorem get_loc_spec (self : range) (key : Z) :
  step self <> 0 ->
  (forall i, get_loc self key = Ok i ->
             0 <= i < len self /\ getitem_scalar self i = Ok key) /\
  (get_loc self key = Raise KeyError <-> ~ In key (tolist self)) /\
  (forall e, get_loc self key = Raise e -> e = KeyError).
Proof.
  intros Hs. unfold get_loc, range_index.
  pose proof (In_tolist_contains self key Hs) as Hin.
  destruct (range_contains self key) eqn:Hc.
  - destruct (contains_position self key Hs Hc) as [Hb Hk].
    split; [|split].
    + intros i H. injection H as <-. split; [exact Hb|].
      rewrite (getitem_scalar_inside self _ Hb).
      unfold compute_item. f_equal. lia.
    + split; [discriminate|]. intros Hn. exfalso. apply Hn. tauto.
    + intros e H. discriminate H.
  - split; [|split].
    + intros i H. discriminate H.
    + split; [|reflexivity]. intros _ H. apply Hin in H. discriminate H.
    + intros e H. injection H as <-. reflexivity.
Qed.

Lemma get_loc_spec_witness :
  (forall i, get_loc (mkrange 10 0 (-2)) 4 = Ok i ->
             0 <= i < len (mkrange 10 0 (-2)) /\
             getitem_scalar (mkrange 10 0 (-2)) i = Ok 4) /\
  (get_loc (mkrange 10 0 (-2)) 4 = Raise KeyError <->
   ~ In 4 (tolist (mkrange 10 0 (-2)))) /\
  (forall e, get_loc (mkrange 10 0 (-2)) 4 = Raise e -> e = KeyError).
Proof.
  apply (get_loc_spec (mkrange 10 0 (-2)) 4). cbn [step]. lia.
Defined.

(** X3: looking up the element found at a position gives the position
    back. *)
Theorem get_loc_getitem (self : range) (i : Z) :
  step self <> 0 -> 0 <= i < len self ->
  exists x, getitem_scalar self i = Ok x /\ get_loc self x = Ok i.
Proof.
  intros Hs Hi. exists (compute_item self i).
  split; [apply getitem_scalar_inside; exact Hi|].
  unfold get_loc, range_index.
  assert (Hin : In (compute_item self i) (tolist self))
    by (apply In_tolist; [exact Hs|]; exists i; split; [exact Hi | reflexivity]).
  apply In_tolist_contains in Hin; [|exact Hs]. rewrite Hin.
  unfold compute_item.
  replace (start self + i * step self - start self) with (i * step self)
    by lia.
  rewrite Z.div_mul by exact Hs. reflexivity.
Qed.

Lemma get_loc_getitem_witness :
  exists x, getitem_scalar (mkrange 10 0 (-2)) 3 = Ok x /\
            get_loc (mkrange 10 0 (-2)) x = Ok 3.
Proof.
  apply (get_loc_getitem (mkrange 10 0 (-2)) 3); [cbn [step]; lia|].
  change (0 <= 3 < 5). lia.
Defined.

(** ** Length and materialisation *)

(** X4: the length is the ceiling of [(stop - start) / step], or zero when
    that is negative. *)
Theorem len_ceiling (self : range) :
  step self <> 0 ->
  size self = Z.max 0 (- ((start self - stop self) / step self)).
Proof.
  intros Hs. unfold size.
  pose proof (len_nonneg self Hs) as Hn.
  pose proof (Z.div_mod (start self - stop self) (step self) Hs) as Hd.
  set (q := (start self - stop self) / step self) in *.
  set (m := (start self - stop self) mod step self) in *.
  apply len_unique; [exact Hn | lia|].
  intros i Hi. rewrite lt_len_iff by assumption.
  destruct (Z.lt_ge_cases 0 (step self)) as [Hp | Hneg].
  - pose proof (Z.mod_pos_bound (start self - stop self) (step self) Hp)
      as Hm. fold m in Hm.
    split.
    + intros [[_ H] | [H _]]; [|lia]. nia.
    + intros H. left. split; [exact Hp|]. nia.
  - pose proof (Z.mod_neg_bound (start self - stop self) (step self)
                  ltac:(lia)) as Hm. fold m in Hm.
    split.
    + intros [[H _] | [_ H]]; [lia|]. nia.
    + intros H. right. split; [lia|]. nia.
Qed.

Lemma len_ceiling_witness :
  size (mkrange 0 10 3) = Z.max 0 (- ((0 - 10) / 3)).
Proof.
  apply (len_ceiling (mkrange 0 10 3)). cbn [step]. lia.
Defined.


(** ** Materialisation and positional access *)

(** X5: [tolist] has [len(self)] entries, and its entry at position [i]
    is what [self[i]] returns, as is [self[i - len(self)]], the same
    position counted from the end. *)
Theorem tolist_getitem (self : range) (i : Z) :
  step self <> 0 -> 0 <= i < len self ->
  Z.of_nat (length (tolist self)) = size self /\
  getitem_scalar self i = Ok (nth (Z.to_nat i) (tolist self) 0) /\
  getitem_scalar self (i - len self) = Ok (nth (Z.to_nat i) (tolist self) 0).
Proof.
  intros Hs Hi. unfold size.
  split; [rewrite length_tolist; lia|].
  rewrite nth_tolist by lia. rewrite Z2Nat.id by lia.
  split; [apply getitem_scalar_inside; exact Hi|].
  unfold getitem_scalar, range_item.
  destruct (Z.ltb_spec (i - len self) 0) as [_|]; [|lia].
  replace (i - len self + len self) with i by lia.
  destruct (Z.ltb_spec i 0) as [|_]; [lia|]. cbn [orb].
  destruct (Z.leb_spec (len self) i); [lia | reflexivity].
Qed.

Lemma tolist_getitem_witness :
  Z.of_nat (length (tolist (mkrange 10 0 (-2)))) = size (mkrange 10 0 (-2)) /\
  getitem_scalar (mkrange 10 0 (-2)) 1
  = Ok (nth (Z.to_nat 1) (tolist (mkrange 10 0 (-2))) 0) /\
  getitem_scalar (mkrange 10 0 (-2)) (1 - len (mkrange 10 0 (-2)))
  = Ok (nth (Z.to_nat 1) (tolist (mkrange 10 0 (-2))) 0).
Proof.
  apply (tolist_getitem (mkrange 10 0 (-2)) 1); [cbn [step]; lia|].
  change (0 <= 1 < 5). lia.
Defined.


(** ** Extremes *)

(** X6: [min] and [max] of an empty index are nan; otherwise they are
    elements of the index that bound every element from below and from
    above. *)
Theorem minmax_spec (self : range) :
  step self <> 0 ->
  (len self = 0 -> min self = None /\ max self = None) /\
  (0 < len self ->
   exists lo hi,
     min self = Some lo /\ max self = Some hi /\
     In lo (tolist self) /\ In hi (tolist self) /\
     forall x, In x (tolist self) -> lo <= x <= hi).
Proof.
  intros Hs. unfold min, max, _minmax. cbn [meth_eqb andb orb].
  split.
  - intros ->. split; reflexivity.
  - intros Hl.
    destruct (Z.eqb_spec (len self - 1) (-1)) as [E | _]; [lia|].
    assert (Hfirst : In (start self) (tolist self)).
    { apply In_tolist; [exact Hs|]. exists 0. unfold compute_item.
      split; lia. }
    assert (Hlast : In (start self + step self * (len self - 1))
                       (tolist self)).
    { apply In_tolist; [exact Hs|]. exists (len self - 1).
      unfold compute_item. split; lia. }
    rewrite orb_false_r.
    destruct (Z.ltb_spec 0 (step self)) as [Hp | Hp].
    + replace (step self <? 0) with false by (symmetry; apply Z.ltb_ge; lia).
      eexists. eexists. split; [reflexivity|]. split; [reflexivity|].
      split; [exact Hfirst|]. split; [exact Hlast|].
      intros x Hx. apply In_tolist in Hx; [|exact Hs].
      destruct Hx as (i & Hi & ->). unfold compute_item. nia.
    + replace (step self <? 0) with true by (symmetry; apply Z.ltb_lt; lia).
      eexists. eexists. split; [reflexivity|]. split; [reflexivity|].
      split; [exact Hlast|]. split; [exact Hfirst|].
      intros x Hx. apply In_tolist in Hx; [|exact Hs].
      destruct Hx as (i & Hi & ->). unfold compute_item. nia.
Qed.

Lemma minmax_spec_witness :
  (len (mkrange 10 0 (-2)) = 0 ->
   min (mkrange 10 0 (-2)) = None /\ max (mkrange 10 0 (-2)) = None) /\
  (0 < len (mkrange 10 0 (-2)) ->
   exists lo hi,
     min (mkrange 10 0 (-2)) = Some lo /\
     max (mkrange 10 0 (-2)) = Some hi /\
     In lo (tolist (mkrange 10 0 (-2))) /\
     In hi (tolist (mkrange 10 0 (-2))) /\
     forall x, In x (tolist (mkrange 10 0 (-2))) -> lo <= x <= hi).
Proof.
  apply (minmax_spec (mkrange 10 0 (-2))). cbn [step]. lia.
Defined.

(** ** Order *)

Lemma sorted_map_seq (R : Z -> Z -> Prop) (f : nat -> Z) (n a : nat) :
  (forall i, R (f i) (f (S i))) -> Sorted R (map f (seq a n)).
Proof.
  intros Hf. revert a. induction n as [|n IH]; intros a; cbn [seq map].
  - constructor.
  - constructor; [apply IH|].
    destruct n; cbn [seq map]; constructor. apply Hf.
Qed.

Lemma sorted_first_two (R : Z -> Z -> Prop) (r : range) :
  2 <= len r -> Sorted R (tolist r) -> R (start r) (start r + step r).
Proof.
  intros Hl H. unfold tolist in H.
  destruct (Z.to_nat (len r)) as [|[|n]] eqn:E; [lia | lia|].
  cbn [seq map] in H. inversion H as [|? ? _ Hhd]; subst.
  inversion Hhd as [|? ? HR]; subst. unfold compute_item in HR.
  change (Z.of_nat 0) with 0 in HR. change (Z.of_nat 1) with 1 in HR.
  replace (start r + 0 * step r) with (start r) in HR by lia.
  replace (start r + 1 * step r) with (start r + step r) in HR by lia.
  exact HR.
Qed.

Lemma sorted_short (R : Z -> Z -> Prop) (r : range) :
  len r <= 1 -> Sorted R (tolist r).
Proof.
  intros Hl. unfold tolist.
  destruct (Z.to_nat (len r)) as [|[|n]] eqn:E; [| |lia];
    cbn [seq map]; repeat constructor.
Qed.

(** X7: the index reports itself increasing exactly when its elements
    never go down, and decreasing exactly when they never go up. *)
Theorem monotonic_spec (self : range) :
  step self <> 0 ->
  (is_monotonic_increasing self = true <-> nondecreasing (tolist self)) /\
  (is_monotonic_decreasing self = true <-> nonincreasing (tolist self)).
Proof.
  intros Hs. unfold is_monotonic_increasing, is_monotonic_decreasing,
    nondecreasing, nonincreasing.
  split; split.
  - intros H. apply orb_prop in H as [H | H].
    + apply Z.ltb_lt in H. unfold tolist. apply sorted_map_seq.
      intros i. unfold compute_item. rewrite Nat2Z.inj_succ. nia.
    + apply Z.leb_le in H. apply sorted_short. exact H.
  - intros H. apply orb_true_iff.
    destruct (Z.le_gt_cases (len self) 1) as [Hl | Hl];
      [right; apply Z.leb_le; exact Hl|].
    left. apply Z.ltb_lt.
    pose proof (sorted_first_two Z.le self ltac:(lia) H). lia.
  - intros H. apply orb_prop in H as [H | H].
    + apply Z.ltb_lt in H. unfold tolist. apply sorted_map_seq.
      intros i. unfold compute_item. rewrite Nat2Z.inj_succ. nia.
    + apply Z.leb_le in H. apply sorted_short. exact H.
  - intros H. apply orb_true_iff.
    destruct (Z.le_gt_cases (len self) 1) as [Hl | Hl];
      [right; apply Z.leb_le; exact Hl|].
    left. apply Z.ltb_lt.
    pose proof (sorted_first_two Z.ge self ltac:(lia) H). lia.
Qed.

Lemma monotonic_spec_witness :
  (is_monotonic_increasing (mkrange 10 0 (-2)) = true <->
   nondecreasing (tolist (mkrange 10 0 (-2)))) /\
  (is_monotonic_decreasing (mkrange 10 0 (-2)) = true <->
   nonincreasing (tolist (mkrange 10 0 (-2)))).
Proof.
  apply (monotonic_spec (mkrange 10 0 (-2))). cbn [step]. lia.
Defined.

Lemma tolist_arange_up (n : Z) :
  0 <= n -> arange 0 n 1 = map Z.of_nat (seq 0 (Z.to_nat n)).
Proof.
  intros Hn. unfold arange, tolist.
  replace (len (mkrange 0 n 1)) with n.
  - apply map_ext. intros i. unfold compute_item; cbn [start step]. lia.
  - symmetry. pose proof (len_exact 0 1 n ltac:(lia) Hn) as H.
    replace (0 + n * 1) with n in H by lia. exact H.
Qed.

Lemma tolist_arange_down (n : Z) :
  0 <= n -> arange (n - 1) (-1) (-1) = rev (arange 0 n 1).
Proof.
  intros Hn. unfold arange.
  rewrite <- tolist_reversed by (cbn [step]; lia).
  f_equal. unfold reversed, compute_item; cbn [start step].
  replace (len (mkrange 0 n 1)) with n.
  - f_equal; lia.
  - symmetry. pose proof (len_exact 0 1 n ltac:(lia) Hn) as H.
    replace (0 + n * 1) with n in H by lia. exact H.
Qed.

Lemma take_all (r : range) :
  take (tolist r) (map Z.of_nat (seq 0 (Z.to_nat (len r)))) = tolist r.
Proof.
  unfold take. rewrite map_map. unfold tolist at 2.
  apply map_ext_in. intros i Hi. apply in_seq in Hi.
  rewrite Nat2Z.id. apply nth_tolist. lia.
Qed.

Lemma take_rev (l idx : list Z) : take l (rev idx) = rev (take l idx).
Proof. unfold take. apply map_rev. Qed.

(** X8: [argsort] lists every position once, and the elements taken in
    that order are strictly increasing. *)
Theorem argsort_sorts (self : range) :
  step self <> 0 ->
  Permutation (argsort self)
              (map Z.of_nat (seq 0 (Z.to_nat (len self)))) /\
  Permutation (take (tolist self) (argsort self)) (tolist self) /\
  ascending (take (tolist self) (argsort self)).
Proof.
  intros Hs. pose proof (len_nonneg self Hs) as Hn. unfold argsort.
  destruct (Z.ltb_spec 0 (step self)) as [Hp | Hp].
  - rewrite tolist_arange_up by exact Hn. rewrite take_all.
    split; [reflexivity|]. split; [reflexivity|].
    apply ascending_tolist. exact Hp.
  - rewrite tolist_arange_down, tolist_arange_up by exact Hn.
    rewrite take_rev, take_all.
    split; [symmetry; apply Permutation_rev|].
    split; [symmetry; apply Permutation_rev|].
    rewrite <- tolist_reversed by exact Hs.
    apply ascending_tolist. rewrite step_reversed. lia.
Qed.

Lemma argsort_sorts_witness :
  Permutation (argsort (mkrange 10 0 (-2)))
              (map Z.of_nat (seq 0 (Z.to_nat (len (mkrange 10 0 (-2)))))) /\
  Permutation (take (tolist (mkrange 10 0 (-2)))
                    (argsort (mkrange 10 0 (-2))))
              (tolist (mkrange 10 0 (-2))) /\
  ascending (take (tolist (mkrange 10 0 (-2)))
                  (argsort (mkrange 10 0 (-2)))).
Proof.
  apply (argsort_sorts (mkrange 10 0 (-2))). cbn [step]. lia.
Defined.

(** X9: [all] is true exactly when no element is zero. *)
Theorem all_spec (self : range) :
  step self <> 0 ->
  (all self = true <-> forall x, In x (tolist self) -> x <> 0).
Proof.
  intros Hs. unfold all. rewrite negb_true_iff.
  pose proof (In_tolist_contains self 0 Hs) as H0. split.
  - intros Hc x Hx ->. apply H0 in Hx. congruence.
  - intros H. destruct (range_contains self 0); [|reflexivity].
    exfalso. apply (H 0); [apply H0|]; reflexivity.
Qed.

Lemma all_spec_witness :
  all (mkrange (-3) 9 3) = true <->
  forall x, In x (tolist (mkrange (-3) 9 3)) -> x <> 0.
Proof.
  apply (all_spec (mkrange (-3) 9 3)). cbn [step]. lia.
Defined.


(** ** Fitting elements *)

(** X10: [_min_fitting_element] is the least integer in the residue class
    of [start] modulo [|step|] that is not below the limit. *)
Theorem min_fitting_least (self : range) (lower_limit : Z) :
  step self <> 0 ->
  lower_limit <= _min_fitting_element self lower_limit /\
  (Z.abs (step self) | _min_fitting_element self lower_limit - start self) /\
  forall y, (Z.abs (step self) | y - start self) -> lower_limit <= y ->
            _min_fitting_element self lower_limit <= y.
Proof.
  intros Hs. pose proof (min_fitting_spec self lower_limit Hs) as H.
  cbv zeta in H. destruct H as [[H1 H2] Hd].
  split; [exact H1|]. split; [exact Hd|].
  intros y Dy Hy.
  destruct (Z.le_gt_cases (_min_fitting_element self lower_limit) y)
    as [|Hgt]; [assumption|].
  assert (D : (Z.abs (step self)
               | _min_fitting_element self lower_limit - y)).
  { apply (divide_shift _ _ (start self) y);
      [apply divide_flip; exact Dy | exact Hd]. }
  assert (Hk : 0 < Z.abs (step self)) by lia.
  pose proof (divide_gap (Z.abs (step self))
                (_min_fitting_element self lower_limit - y) Hk D
                ltac:(lia)).
  lia.
Qed.

Lemma min_fitting_least_witness :
  7 <= _min_fitting_element (mkrange 0 100 (-5)) 7 /\
  (Z.abs (-5) | _min_fitting_element (mkrange 0 100 (-5)) 7 - 0) /\
  forall y, (Z.abs (-5) | y - 0) -> 7 <= y ->
            _min_fitting_element (mkrange 0 100 (-5)) 7 <= y.
Proof.
  apply (min_fitting_least (mkrange 0 100 (-5)) 7). cbn [step]. lia.
Defined.

(** X11: [_max_fitting_element] is the greatest integer in the residue
    class of [start] modulo [|step|] that is not above the limit. *)
Theorem max_fitting_greatest (self : range) (upper_limit : Z) :
  step self <> 0 ->
  _max_fitting_element self upper_limit <= upper_limit /\
  (Z.abs (step self) | _max_fitting_element self upper_limit - start self) /\
  forall y, (Z.abs (step self) | y - start self) -> y <= upper_limit ->
            y <= _max_fitting_element self upper_limit.
Proof.
  intros Hs. unfold _max_fitting_element.
  set (k := Z.abs (step self)). assert (Hk : 0 < k) by (subst k; lia).
  set (n := upper_limit - start self).
  pose proof (Z.div_mod n k ltac:(lia)) as Hd.
  pose proof (Z.mod_pos_bound n k Hk) as Hm.
  assert (Hdiv : (k | start self + k * (n / k) - start self))
    by (exists (n / k); lia).
  split; [subst n; nia|]. split; [exact Hdiv|].
  intros y Dy Hy.
  destruct (Z.le_gt_cases y (start self + k * (n / k))) as [|Hgt];
    [assumption|].
  assert (D : (k | y - (start self + k * (n / k)))).
  { apply (divide_shift _ _ (start self) _);
      [apply divide_flip; exact Hdiv | exact Dy]. }
  pose proof (divide_gap k (y - (start self + k * (n / k))) Hk D
                ltac:(lia)).
  subst n. nia.
Qed.

Lemma max_fitting_greatest_witness :
  _max_fitting_element (mkrange 0 100 (-5)) 7 <= 7 /\
  (Z.abs (-5) | _max_fitting_element (mkrange 0 100 (-5)) 7 - 0) /\
  forall y, (Z.abs (-5) | y - 0) -> y <= 7 ->
            y <= _max_fitting_element (mkrange 0 100 (-5)) 7.
Proof.
  apply (max_fitting_greatest (mkrange 0 100 (-5)) 7). cbn [step]. lia.
Defined.

(** ** The extended Euclidean algorithm, for any two integers *)

(** X12: the loop of [_extended_gcd] ends for every pair of integers;
    what it returns satisfies Bezout's identity, [g] is the greatest
    common divisor up to sign, and its sign is right when neither input
    is negative. *)
Theorem extended_gcd_spec (a b : Z) :
  egcd_run (mkegcd 0 1 1 0 b a) (_extended_gcd a b) /\
  (let '(g, s, t) := _extended_gcd a b in
   a * s + b * t = g /\ Z.abs g = Z.gcd a b /\
   (0 <= a -> 0 <= b -> g = Z.gcd a b)).
Proof.
  pose proof (extended_gcd_run a b) as Hrun.
  pose proof (extended_gcd_bezout a b) as Hbez.
  pose proof (egcd_run_nonneg _ _ Hrun) as Hnn.
  cbn [eg_r eg_old_r] in Hnn.
  split; [exact Hrun|].
  destruct (_extended_gcd a b) as [[g s] t]. cbn [fst] in Hnn.
  destruct Hbez as [H1 H2].
  split; [exact H1|]. split; [exact H2|].
  intros Ha Hb. specialize (Hnn Hb Ha). lia.
Qed.


(** ** Slicing *)

(** The positions that [slice.indices] selects lie inside the sequence. *)
Lemma slice_indices_inside (key : slice) (n b e st i : Z) :
  0 <= n -> slice_indices key n = Ok (b, e, st) ->
  In i (tolist (mkrange b e st)) -> st <> 0 /\ 0 <= i < n.
Proof.
  intros Hn. unfold slice_indices.
  destruct (Z.eqb_spec (match sl_step key with
                        | Some v => v | None => 1 end) 0) as [|Hst];
    [discriminate|].
  set (s := match sl_step key with Some v => v | None => 1 end) in *.
  intros H. injection H as <- <- <-.
  destruct (Z.ltb_spec s 0) as [Hneg | Hpos]; intros Hin;
    (split; [exact Hst|]).
  - apply In_tolist_neg in Hin; [|cbn [step]; exact Hneg].
    cbn [start stop step] in Hin. destruct Hin as [Hin _]. revert Hin.
    destruct (sl_start key) as [vb|], (sl_stop key) as [ve|];
      repeat match goal with
             | |- context [?x <? ?y] => destruct (Z.ltb_spec x y)
             end; lia.
  - apply In_tolist_pos in Hin; [|cbn [step]; lia].
    cbn [start stop step] in Hin. destruct Hin as [Hin _]. revert Hin.
    destruct (sl_start key) as [vb|], (sl_stop key) as [ve|];
      repeat match goal with
             | |- context [?x <? ?y] => destruct (Z.ltb_spec x y)
             end; lia.
Qed.

Lemma take_inside (r : range) (idx : list Z) :
  (forall i, In i idx -> 0 <= i < len r) ->
  take (tolist r) idx = map (compute_item r) idx.
Proof.
  intros H. unfold take. apply map_ext_in. intros i Hi.
  specialize (H i Hi).
  rewrite nth_tolist by lia. rewrite Z2Nat.id by lia. reflexivity.
Qed.

(** X13: a slice with step zero is refused with ValueError; any other
    slice of an index is an index whose elements are those found at the
    positions that [key.indices(len(self))] spans, in that order, and all
    of these positions lie inside the index. *)
Theorem getitem_slice_positions (self : range) (key : slice) :
  step self <> 0 ->
  (sl_step key = Some 0 -> getitem_slice self key = Raise ValueError) /\
  (sl_step key <> Some 0 ->
   exists r b e st,
     slice_indices key (len self) = Ok (b, e, st) /\
     getitem_slice self key = Ok r /\
     tolist r = take (tolist self) (tolist (mkrange b e st)) /\
     forall i, In i (tolist (mkrange b e st)) -> 0 <= i < len self).
Proof.
  intros Hs. pose proof (len_nonneg self Hs) as Hn. split.
  - intros E. unfold getitem_slice, range_slice, slice_indices.
    rewrite E. reflexivity.
  - intros Hne.
    destruct (slice_indices key (len self)) as [[[b e] st]|err] eqn:E.
    2:{ exfalso. unfold slice_indices in E.
        destruct (sl_step key) as [v|]; cbn in E.
        - destruct (Z.eqb_spec v 0) as [-> | _]; [congruence | discriminate].
        - discriminate. }
    assert (Hin : forall i, In i (tolist (mkrange b e st)) ->
                            st <> 0 /\ 0 <= i < len self)
      by (intros i; apply (slice_indices_inside key _ _ _ _ _ Hn E)).
    assert (Hst : st <> 0).
    { unfold slice_indices in E.
      destruct (Z.eqb_spec (match sl_step key with
                            | Some v => v | None => 1 end) 0);
        [discriminate|].
      injection E as _ _ <-. assumption. }
    exists (mkrange (compute_item self b) (compute_item self e)
                    (st * step self)), b, e, st.
    split; [reflexivity|]. split.
    + unfold getitem_slice, range_slice. rewrite E. cbn [bind].
      apply from_range_ok. cbn [step]. nia.
    + split; [|intros i Hi; apply Hin; exact Hi].
      rewrite take_inside by (intros i Hi; apply Hin; exact Hi).
      apply tolist_map.
      * pose proof (len_scale (mkrange b e st) (step self) Hst Hs) as H1.
        cbn [start stop step] in H1.
        pose proof (len_shift (mkrange (b * step self) (e * step self)
                                       (st * step self))
                              (start self) ltac:(cbn [step]; nia)) as H2.
        cbn [start stop step] in H2. rewrite H1 in H2.
        unfold compute_item.
        replace (start self + b * step self)
          with (b * step self + start self) by lia.
        replace (start self + e * step self)
          with (e * step self + start self) by lia.
        exact H2.
      * intros i. unfold compute_item; cbn [start step]. lia.
Qed.

Lemma getitem_slice_positions_witness :
  (sl_step (mkslice (Some 1) None (Some 2)) = Some 0 ->
   getitem_slice (mkrange 10 0 (-2)) (mkslice (Some 1) None (Some 2))
   = Raise ValueError) /\
  (sl_step (mkslice (Some 1) None (Some 2)) <> Some 0 ->
   exists r b e st,
     slice_indices (mkslice (Some 1) None (Some 2))
                   (len (mkrange 10 0 (-2))) = Ok (b, e, st) /\
     getitem_slice (mkrange 10 0 (-2)) (mkslice (Some 1) None (Some 2))
     = Ok r /\
     tolist r = take (tolist (mkrange 10 0 (-2)))
                     (tolist (mkrange b e st)) /\
     forall i, In i (tolist (mkrange b e st)) ->
               0 <= i < len (mkrange 10 0 (-2))).
Proof.
  apply (getitem_slice_positions (mkrange 10 0 (-2))
           (mkslice (Some 1) None (Some 2))).
  cbn [step]. lia.
Defined.

(** X14: [self[::-1]] is an index of the same length that lists the
    elements of [self] in the opposite order; reversing twice gives the
    elements in their original order. *)
Theorem getitem_reverse_spec (self : range) :
  step self <> 0 ->
  exists r,
    getitem_slice self reverse_slice = Ok r /\
    len r = len self /\ tolist r = rev (tolist self) /\
    exists r', getitem_slice r reverse_slice = Ok r' /\
               tolist r' = tolist self.
Proof.
  intros Hs. exists (reversed self).
  assert (Hr : step (reversed self) <> 0) by (rewrite step_reversed; lia).
  split; [apply getitem_reverse; exact Hs|].
  split; [apply len_reversed; exact Hs|].
  split; [apply tolist_reversed; exact Hs|].
  exists (reversed (reversed self)).
  split; [apply getitem_reverse; exact Hr|].
  rewrite tolist_reversed by exact Hr.
  rewrite tolist_reversed by exact Hs. apply rev_involutive.
Qed.

Lemma getitem_reverse_spec_witness :
  exists r,
    getitem_slice (mkrange 0 7 3) reverse_slice = Ok r /\
    len r = len (mkrange 0 7 3) /\ tolist r = rev (tolist (mkrange 0 7 3)) /\
    exists r', getitem_slice r reverse_slice = Ok r' /\
               tolist r' = tolist (mkrange 0 7 3).
Proof.
  apply (getitem_reverse_spec (mkrange 0 7 3)). cbn [step]. lia.
Defined.

(** ** Copies *)

(** X15: copying an index, shallow-copying it, or passing it to the
    constructor gives back the same start, stop and step. *)
Theorem copies_preserve (self : range) :
  step self <> 0 ->
  copy self = Ok self /\ _shallow_copy self = Ok self /\
  new_from_index self = Ok self /\ from_range self = Ok self.
Proof.
  intros Hs.
  assert (H : _simple_new (Some (start self)) (Some (stop self))
                          (Some (step self)) = Ok self)
    by (rewrite simple_new_ints by exact Hs; rewrite range_eta; reflexivity).
  split; [apply from_range_ok; exact Hs|].
  split; [exact H|]. split; [exact H|]. apply from_range_ok. exact Hs.
Qed.

Lemma copies_preserve_witness :
  copy (mkrange 0 0 5) = Ok (mkrange 0 0 5) /\
  _shallow_copy (mkrange 0 0 5) = Ok (mkrange 0 0 5) /\
  new_from_index (mkrange 0 0 5) = Ok (mkrange 0 0 5) /\
  from_range (mkrange 0 0 5) = Ok (mkrange 0 0 5).
Proof.
  apply (copies_preserve (mkrange 0 0 5)). cbn [step]. lia.
Defined.


(** ** Reflected operators and round trips *)

(** X16: [k + index] and [k * index] have the elements [k + x] and
    [k * x], in order. *)
Theorem reflected_add_mul (A : range) (k : Z) :
  step A <> 0 ->
  (exists i, __radd__ A k = Ok i /\
             int_values i = Some (map (fun x => k + x) (tolist A))) /\
  (exists i, __rmul__ A k = Ok i /\
             int_values i = Some (map (fun x => k * x) (tolist A))).
Proof.
  intros Hs. split.
  - eexists. split.
    + unfold __radd__, _evaluate_numeric_binop, new_of_numbers.
      cbn [apply_op bind ensure_python_int].
      rewrite new_ints by exact Hs. reflexivity.
    + cbn [int_values]. f_equal. apply tolist_map.
      * pose proof (len_shift A k Hs) as H.
        replace (start A + k) with (k + start A) in H by lia.
        replace (stop A + k) with (k + stop A) in H by lia. exact H.
      * intros i. unfold compute_item; cbn [start step]. lia.
  - destruct (Z.eq_dec k 0) as [-> | Hk].
    + eexists. split.
      * unfold __rmul__, _evaluate_numeric_binop.
        cbn [apply_op bind is_integer truthy negb orb Z.mul Z.eqb].
        reflexivity.
      * cbn [int_values int_op]. apply map_option_total.
    + eexists. split.
      * unfold __rmul__, _evaluate_numeric_binop, new_of_numbers.
        cbn [apply_op bind ensure_python_int is_integer truthy negb orb].
        assert (Hst : k * step A <> 0) by nia.
        destruct (Z.eqb_spec (k * step A) 0) as [|_]; [contradiction|].
        cbn [negb bind ensure_python_int].
        rewrite new_ints by exact Hst. reflexivity.
      * cbn [int_values]. f_equal. apply tolist_map.
        -- pose proof (len_scale A k Hs Hk) as H.
           replace (start A * k) with (k * start A) in H by lia.
           replace (stop A * k) with (k * stop A) in H by lia.
           replace (step A * k) with (k * step A) in H by lia. exact H.
        -- intros i. unfold compute_item; cbn [start step]. lia.
Qed.

Lemma reflected_add_mul_witness :
  (exists i, __radd__ (mkrange 10 0 (-2)) 3 = Ok i /\
             int_values i
             = Some (map (fun x => 3 + x) (tolist (mkrange 10 0 (-2))))) /\
  (exists i, __rmul__ (mkrange 10 0 (-2)) 3 = Ok i /\
             int_values i
             = Some (map (fun x => 3 * x) (tolist (mkrange 10 0 (-2))))).
Proof.
  apply (reflected_add_mul (mkrange 10 0 (-2)) 3). cbn [step]. lia.
Defined.

(** X17: [k - index] keeps the step of the index while start and stop
    change sides, so for an index that is not empty the result is an
    empty RangeIndex. *)
Theorem reflected_sub_empty (A : range) (k : Z) :
  step A <> 0 -> 0 < len A ->
  __rsub__ A k = Ok (RangeIndex (mkrange (k - start A) (k - stop A) (step A)))
  /\ tolist (mkrange (k - start A) (k - stop A) (step A)) = [].
Proof.
  intros Hs Hl. split.
  - unfold __rsub__, _evaluate_numeric_binop, new_of_numbers.
    cbn [apply_op bind ensure_python_int].
    rewrite new_ints by exact Hs. reflexivity.
  - apply tolist_empty.
    assert (H0 : 0 < len A) by exact Hl.
    apply (lt_len_iff A 0 Hs ltac:(lia)) in H0.
    pose proof (len_nonneg (mkrange (k - start A) (k - stop A) (step A)) Hs)
      as Hn.
    destruct (Z.eq_dec (len (mkrange (k - start A) (k - stop A) (step A))) 0)
      as [|Hne]; [assumption|].
    assert (H1 : 0 < len (mkrange (k - start A) (k - stop A) (step A)))
      by lia.
    apply (lt_len_iff (mkrange (k - start A) (k - stop A) (step A)) 0
             Hs ltac:(lia)) in H1.
    cbn [start stop step] in H1. lia.
Qed.

Lemma reflected_sub_empty_witness :
  __rsub__ (mkrange 0 3 1) 5 = Ok (RangeIndex (mkrange (5 - 0) (5 - 3) 1))
  /\ tolist (mkrange (5 - 0) (5 - 3) 1) = [].
Proof.
  apply (reflected_sub_empty (mkrange 0 3 1) 5); [cbn [step]; lia|].
  change (0 < 3). lia.
Defined.

(** X18: the reflected true division [k / index] never keeps the range
    form either: it is always left to the dense index. *)
Theorem reflected_truediv_dense (A : range) (k : Z) :
  __rtruediv__ A k = Ok (Int64Binop RTrueDiv (tolist A) (PyInt k)).
Proof.
  unfold __rtruediv__, _evaluate_numeric_binop. cbn [apply_op].
  destruct (step A =? 0); reflexivity.
Qed.

(** X19: subtracting the scalar that was added gives the index back,
    triple for triple. *)
Theorem add_then_sub (A : range) (k : Z) :
  step A <> 0 ->
  exists r, __add__ A k = Ok (RangeIndex r) /\
            __sub__ r k = Ok (RangeIndex A).
Proof.
  intros Hs. destruct (add_spec A k Hs) as [Ea _].
  eexists. split; [exact Ea|].
  destruct (sub_spec (mkrange (start A + k) (stop A + k) (step A)) k Hs)
    as [Es _].
  rewrite Es. cbn [start stop step]. f_equal. f_equal.
  rewrite <- (range_eta A) at 4. f_equal; lia.
Qed.

Lemma add_then_sub_witness :
  exists r, __add__ (mkrange 10 0 (-2)) 7 = Ok (RangeIndex r) /\
            __sub__ r 7 = Ok (RangeIndex (mkrange 10 0 (-2))).
Proof.
  apply (add_then_sub (mkrange 10 0 (-2)) 7). cbn [step]. lia.
Defined.

(** X20: floor division by the scalar an index was multiplied with keeps
    the range form and gives the index back with its stop written
    exactly, hence with the same elements. *)
Theorem mul_then_floordiv (A : range) (k : Z) :
  step A <> 0 -> k <> 0 ->
  exists r, __mul__ A k = Ok (RangeIndex r) /\
            __floordiv__ r (PyInt k) = Ok (RangeIndex (canonical A)) /\
            tolist (canonical A) = tolist A.
Proof.
  intros Hs Hk. destruct (mul_spec A k Hs) as [Mn _].
  destruct (Mn Hk) as [Em _].
  eexists. split; [exact Em|]. split; [|apply tolist_canonical; exact Hs].
  set (r := mkrange (start A * k) (stop A * k) (step A * k)).
  assert (Hr : step r <> 0) by (subst r; cbn [step]; nia).
  destruct (floordiv_exact r k Hr Hk) as [E _].
  - exists (start A). reflexivity.
  - exists (step A). reflexivity.
  - rewrite E. unfold canonical. f_equal. f_equal.
    subst r. rewrite (len_scale A k Hs Hk). cbn [start step].
    rewrite !Z.div_mul by exact Hk. reflexivity.
Qed.

Lemma mul_then_floordiv_witness :
  exists r, __mul__ (mkrange 10 0 (-2)) 3 = Ok (RangeIndex r) /\
            __floordiv__ r (PyInt 3)
            = Ok (RangeIndex (canonical (mkrange 10 0 (-2)))) /\
            tolist (canonical (mkrange 10 0 (-2)))
            = tolist (mkrange 10 0 (-2)).
Proof.
  apply (mul_then_floordiv (mkrange 10 0 (-2)) 3); [cbn [step]; lia | lia].
Defined.

(** ** Equality as a relation *)

(** X21: [equals] is reflexive, symmetric and transitive. *)
Theorem equals_equivalence (A B C : range) :
  step A <> 0 -> step B <> 0 -> step C <> 0 ->
  equals A A = true /\
  (equals A B = true -> equals B A = true) /\
  (equals A B = true -> equals B C = true -> equals A C = true).
Proof.
  intros HA HB HC. unfold equals.
  split; [apply range_eqb_tolist; [assumption..|reflexivity]|].
  split.
  - intros H. apply range_eqb_tolist; [assumption..|].
    apply range_eqb_tolist in H; [|assumption..]. congruence.
  - intros H1 H2. apply range_eqb_tolist; [assumption..|].
    apply range_eqb_tolist in H1; [|assumption..].
    apply range_eqb_tolist in H2; [|assumption..]. congruence.
Qed.

Lemma equals_equivalence_witness :
  equals (mkrange 0 5 2) (mkrange 0 5 2) = true /\
  (equals (mkrange 0 5 2) (mkrange 0 6 2) = true ->
   equals (mkrange 0 6 2) (mkrange 0 5 2) = true) /\
  (equals (mkrange 0 5 2) (mkrange 0 6 2) = true ->
   equals (mkrange 0 6 2) (mkrange 4 (-2) (-2)) = true ->
   equals (mkrange 0 5 2) (mkrange 4 (-2) (-2)) = true).
Proof.
  apply (equals_equivalence (mkrange 0 5 2) (mkrange 0 6 2)
           (mkrange 4 (-2) (-2))); cbn [step]; lia.
Defined.


(** ** Orientation of an intersection *)

(** Without sorting, the intersection of operands that are not equal is
    the empty range, or an increasing range, turned around when both
    operands are decreasing. *)
Lemma intersection_unsorted_shape (A B : range) (r : range) :
  step A <> 0 -> step B <> 0 -> equals A B = false ->
  intersection A B SortFalse = Ok r ->
  r = mkrange 0 0 1 \/
  exists res, 0 < step res /\
              r = if (step A <? 0) && (step B <? 0) then reversed res
                  else res.
Proof.
  intros HA HB Hne. unfold intersection. rewrite Hne.
  destruct ((len A =? 0) || (len B =? 0)).
  { rewrite simple_new_empty. intros E. injection E as <-. left.
    reflexivity. }
  rewrite !normalized_ok. cbn [bind].
  pose proof (step_normalized A HA) as Ha.
  pose proof (step_normalized B HB) as Hb.
  pose proof (intersection_increasing (normalized A) (normalized B) Ha Hb)
    as Hcore.
  cbv zeta in Hcore.
  destruct (_extended_gcd (step (normalized A)) (step (normalized B)))
    as [[g s] t].
  destruct Hcore as (Hg & HL & _ & _).
  destruct (Z.min (stop (normalized A)) (stop (normalized B))
            <=? Z.max (start (normalized A)) (start (normalized B))).
  { rewrite simple_new_empty. intros E. injection E as <-. left.
    reflexivity. }
  unfold py_mod, py_floordiv.
  replace (g =? 0) with false by (symmetry; apply Z.eqb_neq; lia).
  cbn [bind].
  destruct ((start (normalized A) - start (normalized B)) mod g =? 0);
    cbn [negb].
  2:{ rewrite simple_new_empty. intros E. injection E as <-. left.
      reflexivity. }
  rewrite simple_new_ints by lia. cbn [bind start stop step].
  rewrite simple_new_ints by lia. cbn [bind start stop step].
  set (res := mkrange _ _ _).
  assert (Hres : 0 < step res) by (subst res; cbn [step]; lia).
  replace (step (normalized A) * step (normalized B) / g <? 0) with false
    by (symmetry; apply Z.ltb_ge; lia).
  rewrite (getitem_reverse res ltac:(lia)).
  intros E. right. exists res. split; [exact Hres|].
  destruct ((step A <? 0) && (step B <? 0)); cbn [eqb negb bind] in E;
    injection E as <-; reflexivity.
Qed.

(** X22: with [sort=False], the intersection of two operands that are not
    equal, at least one of them increasing, is an increasing range: its
    step is positive and its elements ascend. *)
Theorem intersection_orientation (A B : range) (r : range) :
  step A <> 0 -> step B <> 0 -> equals A B = false ->
  0 < step A \/ 0 < step B ->
  intersection A B SortFalse = Ok r ->
  0 < step r /\ ascending (tolist r).
Proof.
  intros HA HB Hne Hpos E.
  assert (Hmix : (step A <? 0) && (step B <? 0) = false).
  { apply andb_false_iff.
    destruct Hpos; [left | right]; apply Z.ltb_ge; lia. }
  destruct (intersection_unsorted_shape A B r HA HB Hne E)
    as [-> | (res & Hres & ->)].
  - split; [cbn [step]; lia | constructor].
  - rewrite Hmix. split; [exact Hres | apply ascending_tolist; exact Hres].
Qed.

Lemma intersection_orientation_witness :
  0 < step (mkrange 12 30 12) /\ ascending (tolist (mkrange 12 30 12)).
Proof.
  apply (intersection_orientation (mkrange 0 30 4) (mkrange 30 0 (-6))
           (mkrange 12 30 12));
    [cbn [step]; lia | cbn [step]; lia | reflexivity
    | left; cbn [step]; lia | reflexivity].
Defined.

(** X24: with [sort=False], an intersection of two decreasing operands
    that are not equal is decreasing whenever it is not empty: its step
    is negative and its elements descend. *)
Theorem intersection_decreasing (A B : range) (r : range) :
  step A < 0 -> step B < 0 -> equals A B = false ->
  intersection A B SortFalse = Ok r -> tolist r <> [] ->
  step r < 0 /\ ascending (rev (tolist r)).
Proof.
  intros NA NB Hne E Hnil.
  assert (Hboth : (step A <? 0) && (step B <? 0) = true).
  { apply andb_true_intro. split; apply Z.ltb_lt; assumption. }
  destruct (intersection_unsorted_shape A B r ltac:(lia) ltac:(lia) Hne E)
    as [-> | (res & Hres & ->)].
  - exfalso. apply Hnil. reflexivity.
  - rewrite Hboth. split; [rewrite step_reversed; lia|].
    rewrite tolist_reversed by lia. rewrite rev_involutive.
    apply ascending_tolist. exact Hres.
Qed.

Lemma intersection_decreasing_witness :
  step (mkrange 24 0 (-12)) < 0 /\
  ascending (rev (tolist (mkrange 24 0 (-12)))).
Proof.
  apply (intersection_decreasing (mkrange 40 0 (-4)) (mkrange 30 0 (-6))
           (mkrange 24 0 (-12)));
    [cbn [step]; lia | cbn [step]; lia | reflexivity | reflexivity
    | vm_compute; discriminate].
Defined.

(** ** The half-step branch of the union *)

Lemma half_step_slip_misses_witness :
  (forall i, _union (mkrange 0 8 4) (mkrange 1 9 4) SortNone = Ok i ->
     exists r x,
       i = RangeIndex r /\
       (In x (tolist (mkrange 0 8 4)) \/ In x (tolist (mkrange 1 9 4))) /\
       ~ In x (tolist r)) /\
  (floats_exact (mkrange 0 8 4) (mkrange 1 9 4) = true ->
   exists r, _union (mkrange 0 8 4) (mkrange 1 9 4) SortNone
             = Ok (RangeIndex r)).
Proof.
  apply (half_step_slip_misses (mkrange 0 8 4) (mkrange 1 9 4));
    [cbn [step]; lia | cbn [step]; lia | vm_compute; reflexivity].
Defined.
